(** * ESP32 upload server: the request handlers of [app.js]

    A shallow embedding of the two Express handlers of [src/app.js]
    ([GET /images] and [POST /upload]), of the Mongoose schema of
    [src/models/Image.js], and of the earlier upload handler kept in
    [src/unnamed/part_000] (the same pipeline without MongoDB).

    The handlers are sequential glue around three collaborators
    (Cloudinary, MongoDB through Mongoose, the Telegram bot API).  The
    collaborators are not part of the repository: what they answer is
    taken from a record of oracles, and every call made to them is
    written to a trace, so that "no collaborator is invoked" is a
    statement about that trace. *)

From stdpp Require Import gmap strings list fin_maps sorting.
From Stdlib Require Import ZArith Ascii String.

Local Open Scope Z_scope.
Local Open Scope string_scope.

(** ** JavaScript values *)

(** The numbers the handlers compute with: an integer or [NaN].  [Num z]
    stands for the double nearest to [z]; the two coincide up to [2^53],
    and rounding is monotone, so comparisons against [100] are exact. *)
Inductive jsnum :=
| NaN
| Num (z : Z).

Global Instance jsnum_eq_dec : EqDecision jsnum.
Proof. solve_decision. Defined.

(** [Math.min(a, b)]: [NaN] as soon as one argument is [NaN]. *)
Definition Math_min (a b : jsnum) : jsnum :=
  match a, b with
  | Num x, Num y => Num (Z.min x y)
  | _, _ => NaN
  end.

(** Header values, query parameters and environment variables are strings
    or [undefined]; [undefined] is [None].  (Repeated or bracketed query
    parameters, which the query parser turns into arrays or objects, are
    outside this model.) *)
Definition truthy (v : option string) : bool :=
  match v with
  | Some s => negb (String.eqb s "")
  | None => false
  end.

(** [a || b] *)
Definition js_or (a b : option string) : option string :=
  if truthy a then a else b.

(** [a || "literal"] *)
Definition js_or_lit (a : option string) (b : string) : string :=
  match a with
  | Some s => if String.eqb s "" then b else s
  | None => b
  end.

(** ** [parseInt(s, 10)] *)

(** Strings are sequences of bytes, read as UTF-8: a query parameter is
    the percent-decoded text of the URL.  The [StrWhiteSpaceChar] class
    that [parseInt] skips has members of one, two and three bytes. *)

(** Its ASCII members: TAB, LF, VT, FF, CR and space. *)
Definition is_white (c : ascii) : bool :=
  let n := nat_of_ascii c in
  ((9 <=? n) && (n <=? 13) || (n =? 32))%nat.

(** Its member of two bytes: U+00A0 (C2 A0). *)
Definition is_white2 (c1 c2 : ascii) : bool :=
  ((nat_of_ascii c1 =? 194) && (nat_of_ascii c2 =? 160))%nat.

(** Its members of three bytes: U+1680 (E1 9A 80), U+2000 to U+200A
    (E2 80 80 to E2 80 8A), U+2028 and U+2029 (E2 80 A8, E2 80 A9), U+202F
    (E2 80 AF), U+205F (E2 81 9F), U+3000 (E3 80 80), U+FEFF (EF BB BF). *)
Definition is_white3 (c1 c2 c3 : ascii) : bool :=
  let n1 := nat_of_ascii c1 in
  let n2 := nat_of_ascii c2 in
  let n3 := nat_of_ascii c3 in
  ((n1 =? 225) && (n2 =? 154) && (n3 =? 128)
   || (n1 =? 226) && (n2 =? 128)
      && ((128 <=? n3) && (n3 <=? 138) || (n3 =? 168) || (n3 =? 169)
          || (n3 =? 175))
   || (n1 =? 226) && (n2 =? 129) && (n3 =? 159)
   || (n1 =? 227) && (n2 =? 128) && (n3 =? 128)
   || (n1 =? 239) && (n2 =? 187) && (n3 =? 191))%nat.

Fixpoint trim_start (s : string) : string :=
  match s with
  | String c1 r1 =>
      if is_white c1 then trim_start r1
      else
        match r1 with
        | String c2 r2 =>
            if is_white2 c1 c2 then trim_start r2
            else
              match r2 with
              | String c3 r3 => if is_white3 c1 c2 c3 then trim_start r3 else s
              | EmptyString => s
              end
        | EmptyString => s
        end
  | EmptyString => s
  end.

Definition digit_of (c : ascii) : option Z :=
  let n := nat_of_ascii c in
  if ((48 <=? n) && (n <=? 57))%nat then Some (Z.of_nat n - 48) else None.

(** The value of the longest prefix of decimal digits, [acc] being the
    value of the digits already read; [None] when no digit was read. *)
Fixpoint digits_prefix (acc : option Z) (s : string) : option Z :=
  match s with
  | String c rest =>
      match digit_of c with
      | Some d => digits_prefix (Some (10 * default 0 acc + d)) rest
      | None => acc
      end
  | EmptyString => acc
  end.

(** [parseInt(input, 10)]: skip leading white space, read an optional
    sign, then the longest run of decimal digits; [NaN] without a digit. *)
Definition parseInt (input : string) : jsnum :=
  let s := trim_start input in
  let '(sign, s) :=
    match s with
    | String "-" rest => (-1, rest)
    | String "+" rest => (1, rest)
    | _ => (1, s)
    end in
  match digits_prefix None s with
  | Some n => Num (sign * n)
  | None => NaN
  end.

(** [app.js], line 43:
    [Math.min(100, parseInt(req.query.limit || "20", 10))] *)
Definition effective_limit (limit : option string) : jsnum :=
  Math_min (Num 100) (parseInt (js_or_lit limit "20")).

(** ** Data model *)

(** A MongoDB [ObjectId]: the creation time it embeds (what
    [getTimestamp()] returns, as a date) and the rest of its bytes. *)
Record ObjectId := { getTimestamp : Z; oid_rest : Z }.

Global Instance ObjectId_eq_dec : EqDecision ObjectId.
Proof. solve_decision. Defined.

(** A stored document of the [Image] model ([models/Image.js]).  Dates are
    milliseconds since the epoch.  [deviceId] and [url] are strings;
    [public_id], [width], [height] and [bytes] are optional; the schema
    option [timestamps] adds [createdAt] and [updatedAt], and Mongoose
    adds [_id] and the version key [__v]. *)
Record ImageDoc := {
  _id : ObjectId;
  deviceId : string;
  url : string;
  public_id : option string;
  width : option Z;
  height : option Z;
  bytes : option Z;
  createdAt : option Z;
  updatedAt : option Z;
  __v : Z;
}.

Global Instance ImageDoc_eq_dec : EqDecision ImageDoc.
Proof. solve_decision. Defined.

(** What Cloudinary's upload callback passes as [result]. *)
Module Cloudinary.
Record result := {
  secure_url : string;
  public_id : string;
  width : Z;
  height : Z;
  bytes : Z;
}.
End Cloudinary.

(** The values that occur in the JSON bodies the handlers send. *)
#[local] Set Warnings "-register-all".
Inductive jsval :=
| JBool (b : bool)
| JNum (n : Z)
| JStr (s : string)
| JDate (t : Z)
| JOid (o : ObjectId)
| JArr (items : list (gmap string jsval)).
#[local] Set Warnings "register-all".

(** [req.body] as the upload handler finds it: [undefined] when no parser
    filled it, the [Buffer] produced by [express.raw] for an [image/*]
    request, or an object left by another body parser, of which only the
    [length] property matters ([None]: no such property, or not a
    number). *)
Inductive Body :=
| BUndefined
| BBuffer (data : list Byte.byte)
| BObject (length : option Z).

(** A request as a handler receives it.  [query] holds the parameters
    whose value is a string, which is what the query parser yields for a
    parameter given once and without brackets; a parameter it turns into
    an array or an object has no place in it. *)
Record Request := {
  headers : gmap string string;
  query : gmap string string;
  body : Body;
}.

(** [res.status(status).json(json)]; [res.json] alone sends status 200. *)
Record Response := {
  status : Z;
  json : gmap string jsval;
}.

(** A thrown JavaScript value, by what [String(err)] prints. *)
Definition JsError := string.

(** How a computation fails: with an exception an enclosing [try] can
    catch (a [throw], a rejected promise that is awaited), or with one
    thrown where no [try] reaches it, in a stream callback on a later
    tick, which ends the process. *)
Inductive Failure :=
| Thrown (e : JsError)
| Uncaught (e : JsError).

(** ** Collaborators, trace and state *)

Inductive Event :=
| ConsoleLog (msg : string)
| ConsoleWarn (msg : string)
| ConsoleError (msg : string)
| UploadStream (folder : string) (buffer : Body)
| ImageSave (doc : ImageDoc)
| ImageFind (filter : option string) (limit : jsnum)
| AxiosPost (endpoint chat_id photo caption : string).

(** The calls to the storage, persistence and notification
    collaborators; console output is not one of them. *)
Definition is_collaborator_call (e : Event) : bool :=
  match e with
  | UploadStream _ _ | ImageSave _ | ImageFind _ _ | AxiosPost _ _ _ _ => true
  | ConsoleLog _ | ConsoleWarn _ | ConsoleError _ => false
  end.

Definition is_storage_call (e : Event) : bool :=
  match e with UploadStream _ _ => true | _ => false end.
Definition is_persistence_call (e : Event) : bool :=
  match e with ImageSave _ => true | _ => false end.
Definition is_notification_call (e : Event) : bool :=
  match e with AxiosPost _ _ _ _ => true | _ => false end.

(** The state a handler runs in: the [images] collection of MongoDB, in
    insertion order, and the trace of what the handler did, oldest first. *)
Record World := {
  collection : list ImageDoc;
  trace : list Event;
}.

(** What the outside answers.  None of it is fixed by the repository. *)
Record Collab := {
  (** the [error] or the [result] that the callback given to
      [cloudinary.uploader.upload_stream] receives once the bytes of a
      [Buffer] have been piped into the stream *)
  upload_callback : string -> list Byte.byte -> JsError + Cloudinary.result;
  (** the identifier Mongoose generates in [new Image(...)] *)
  new_ObjectId : list ImageDoc -> ObjectId;
  (** the clock read by [save()] for [createdAt] and [updatedAt] *)
  Date_now : Z;
  (** [Some e]: the insertion of a valid document fails with [e] *)
  insert_error : ImageDoc -> list ImageDoc -> option JsError;
  (** [Some e]: the [find] query fails with [e] *)
  find_error : option string -> jsnum -> option JsError;
  (** what the driver does with a [NaN] limit: [Some e] rejects the
      query, [None] runs it without a limit *)
  limit_NaN_error : option JsError;
  (** [Some e]: [axios.post] rejects with [e] *)
  axios_post : string -> string -> string -> string -> option JsError;
  (** what the handler's own call of [toLocaleString] returns when the
      caption is built: [app.js] formats with [en-IN] and
      [Asia/Kolkata], [part_000] with the defaults of the host *)
  toLocaleString : string;
}.

(** ** The handler monad: state, trace and exceptions *)

Definition M (A : Type) : Type := World -> (Failure + A) * World.

Global Instance M_ret : MRet M := fun A a w => (inr a, w).

Global Instance M_bind : MBind M := fun A B f m w =>
  match m w with
  | (inr a, w') => f a w'
  | (inl e, w') => (inl e, w')
  end.

Definition throw {A} (e : JsError) : M A := fun w => (inl (Thrown e), w).

Definition uncaught {A} (e : JsError) : M A := fun w => (inl (Uncaught e), w).

(** [try { m } catch (err) { handler err }] *)
Definition try_catch {A} (m : M A) (handler : JsError -> M A) : M A := fun w =>
  match m w with
  | (inr a, w') => (inr a, w')
  | (inl (Thrown e), w') => handler e w'
  | (inl (Uncaught e), w') => (inl (Uncaught e), w')
  end.

Definition emit (e : Event) : M unit := fun w =>
  (inr tt, {| collection := collection w; trace := trace w ++ [e] |}).

Definition get_collection : M (list ImageDoc) := fun w => (inr (collection w), w).

Definition put_collection (c : list ImageDoc) : M unit := fun w =>
  (inr tt, {| collection := c; trace := trace w |}).

(** [await] on a collaborator's promise: its value, or the rejection
    rethrown. *)
Definition await {A} (r : JsError + A) : M A :=
  match r with
  | inl e => throw e
  | inr a => mret a
  end.

(** ** The [Image] model ([models/Image.js]) through Mongoose *)

(** [new Image({ deviceId, url, public_id, width, height, bytes })]: the
    document gets its identifier at construction; the timestamps come
    with [save()]. *)
Definition Image_new (c : Collab) (existing : list ImageDoc)
    (device : string) (r : Cloudinary.result) : ImageDoc :=
  {| _id := new_ObjectId c existing;
     deviceId := device;
     url := Cloudinary.secure_url r;
     public_id := Some (Cloudinary.public_id r);
     width := Some (Cloudinary.width r);
     height := Some (Cloudinary.height r);
     bytes := Some (Cloudinary.bytes r);
     createdAt := None;
     updatedAt := None;
     __v := 0 |}.

(** What [save()] stores: the document with both timestamps set. *)
Definition stamped (now : Z) (d : ImageDoc) : ImageDoc :=
  {| _id := _id d; deviceId := deviceId d; url := url d;
     public_id := public_id d; width := width d; height := height d;
     bytes := bytes d;
     createdAt := Some now; updatedAt := Some now; __v := __v d |}.

(** [imgDoc.save()]: validation ([url] is [required], which an empty
    string does not satisfy), then the insertion, which the database may
    refuse.  The stored document is returned. *)
Definition Image_save (c : Collab) (d : ImageDoc) : M ImageDoc :=
  emit (ImageSave d);;
  if String.eqb (url d) "" then
    throw "ValidationError: Image validation failed: url: Path `url` is required."
  else
    docs ← get_collection;
    let d' := stamped (Date_now c) d in
    match insert_error c d' docs with
    | Some e => throw e
    | None => put_collection (docs ++ [d']);; mret d'
    end.

(** The order of [.sort({ createdAt: -1 })]: a missing [createdAt] sorts
    below every date. *)
Definition date_le (a b : option Z) : Prop :=
  match a, b with
  | None, _ => True
  | Some _, None => False
  | Some x, Some y => (x <= y)%Z
  end.

Global Instance date_le_dec a b : Decision (date_le a b).
Proof. destruct a, b; simpl; apply _. Defined.

(** [a] may come before [b] in the result: [a] is not older than [b]. *)
Definition newer_first : relation ImageDoc :=
  λ a b, date_le (createdAt b) (createdAt a).

Global Instance newer_first_dec a b : Decision (newer_first a b).
Proof. unfold newer_first. apply _. Defined.

Definition sort_createdAt_desc (l : list ImageDoc) : list ImageDoc :=
  merge_sort newer_first l.

(** [.limit(n)] on a cursor: [0] means no limit, a negative [n] is read
    as its absolute value. *)
Definition cursor_limit {A} (n : Z) (l : list A) : list A :=
  if (n =? 0)%Z then l else take (Z.to_nat (Z.abs n)) l.

Definition set_opt (k : string) (v : option jsval)
    (o : gmap string jsval) : gmap string jsval :=
  match v with
  | Some x => <[k := x]> o
  | None => o
  end.

(** The plain object [.lean()] yields for a stored document: a field
    that is absent from the document is absent from the object. *)
Definition lean (d : ImageDoc) : gmap string jsval :=
  set_opt "public_id" (JStr <$> public_id d)
  (set_opt "width" (JNum <$> width d)
  (set_opt "height" (JNum <$> height d)
  (set_opt "bytes" (JNum <$> bytes d)
  (set_opt "createdAt" (JDate <$> createdAt d)
  (set_opt "updatedAt" (JDate <$> updatedAt d)
  {[ "_id" := JOid (_id d);
     "deviceId" := JStr (deviceId d);
     "url" := JStr (url d);
     "__v" := JNum (__v d) ]}))))).

(** [.select({ f1: 1, ..., fn: 1 })], an inclusion projection: the listed
    fields are kept, and so is [_id], which only [_id: 0] would drop. *)
Definition select (fields : list string)
    (o : gmap string jsval) : gmap string jsval :=
  filter (λ kv, kv.1 ∈ "_id" :: fields) o.

(** [Image.find(filter).sort({ createdAt: -1 }).limit(limit)
      .select(fields).lean()], awaited. *)
Definition Image_find (c : Collab) (device : option string) (limit : jsnum)
    (fields : list string) : M (list (gmap string jsval)) :=
  emit (ImageFind device limit);;
  docs ← get_collection;
  match find_error c device limit with
  | Some e => throw e
  | None =>
      let matched :=
        match device with
        | Some x => filter (λ d, deviceId d = x) docs
        | None => docs
        end in
      let sorted := sort_createdAt_desc matched in
      limited ←
        match limit with
        | Num n => mret (cursor_limit n sorted)
        | NaN =>
            match limit_NaN_error c with
            | Some e => throw e
            | None => mret sorted
            end
        end;
      mret (select fields ∘ lean <$> limited)
  end.

(** ** [GET /images] ([app.js], lines 41-64) *)

Definition images_projection : list string :=
  ["url"; "deviceId"; "createdAt"; "public_id"; "width"; "height"; "bytes"].

Definition get_images (c : Collab) (req : Request) : M Response :=
  try_catch
    (let limit := effective_limit (query req !! "limit") in
     let filter :=
       if truthy (query req !! "deviceId") then query req !! "deviceId"
       else None in
     docs ← Image_find c filter limit images_projection;
     mret {| status := 200;
             json := {[ "ok" := JBool true; "images" := JArr docs ]} |})
    (λ err,
       emit (ConsoleError "GET /images error");;
       mret {| status := 500;
               json := {[ "ok" := JBool false; "error" := JStr err ]} |}).

(** ** [POST /upload] *)

(** [!buffer || buffer.length === 0] *)
Definition no_image (buffer : Body) : bool :=
  match buffer with
  | BUndefined => true
  | BBuffer data => bool_decide (data = [])
  | BObject len => bool_decide (len = Some 0%Z)
  end.

(** [!apiKey || apiKey !== process.env.DEVICE_API_KEY] *)
Definition unauthorized (env : gmap string string)
    (apiKey : option string) : bool :=
  negb (truthy apiKey) || negb (bool_decide (apiKey = env !! "DEVICE_API_KEY")).

(** What the stream of [upload_stream] throws when it is written a chunk
    that is neither a string nor a [Buffer]. *)
Definition write_error : JsError :=
  "TypeError [ERR_INVALID_ARG_TYPE]: The chunk argument must be of type string or an instance of Buffer or Uint8Array".

(** The outcome of streaming [buffer] to Cloudinary (line 100): for a
    [Buffer], what the callback receives; for any other value, which
    [streamifier] hands over as one object, the error of the write. *)
Definition upload_stream (c : Collab) (folder : string)
    (buffer : Body) : JsError + Cloudinary.result :=
  match buffer with
  | BBuffer data => upload_callback c folder data
  | BUndefined | BObject _ => inl write_error
  end.

(** The upload through [upload_stream], wrapped in a promise and awaited
    (lines 91-101).  For a [Buffer] the callback settles the promise.
    For any other value the write throws on a later tick, outside the
    promise and outside every [try]: the promise never settles and the
    process ends. *)
Definition cloudinary_upload (c : Collab) (folder : string)
    (buffer : Body) : M Cloudinary.result :=
  emit (UploadStream folder buffer);;
  match buffer with
  | BBuffer _ => await (upload_stream c folder buffer)
  | BUndefined | BObject _ => uncaught write_error
  end.

(** The optional Telegram notification (lines 127-151 of [app.js], lines
    63-84 of [part_000]); a failure is logged and goes no further.  The
    time in the caption is what the running handler's own call of
    [toLocaleString] returns. *)
Definition telegram_notify (env : gmap string string) (c : Collab)
    (device : string) (r : Cloudinary.result) : M unit :=
  let tgToken := env !! "TELEGRAM_BOT_TOKEN" in
  let tgChat := env !! "TELEGRAM_CHAT_ID" in
  if truthy tgToken && truthy tgChat then
    try_catch
      (let caption := "Visitor at " +:+ device +:+ " — " +:+ toLocaleString c in
       let tgUrl :=
         "https://api.telegram.org/bot" +:+ default "" tgToken +:+ "/sendPhoto" in
       let chat := default "" tgChat in
       let photo := Cloudinary.secure_url r in
       emit (AxiosPost tgUrl chat photo caption);;
       match axios_post c tgUrl chat photo caption with
       | Some e => throw e
       | None => mret tt
       end)
      (λ tgErr, emit (ConsoleWarn "Telegram notify failed:"))
  else mret tt.

(** The fields every successful upload answers with. *)
Definition upload_json (r : Cloudinary.result) : gmap string jsval :=
  {[ "ok" := JBool true;
     "url" := JStr (Cloudinary.secure_url r);
     "public_id" := JStr (Cloudinary.public_id r);
     "width" := JNum (Cloudinary.width r);
     "height" := JNum (Cloudinary.height r);
     "bytes" := JNum (Cloudinary.bytes r) ]}.

(** [savedDoc.createdAt || savedDoc._id.getTimestamp?.()] *)
Definition savedAt_of (d : ImageDoc) : Z :=
  match createdAt d with
  | Some t => t
  | None => getTimestamp (_id d)
  end.

(** The handler of [app.js], lines 70-172. *)
Definition post_upload (env : gmap string string) (c : Collab)
    (req : Request) : M Response :=
  try_catch
    (emit (ConsoleLog "Received");;
     let apiKey := js_or (headers req !! "x-api-key") (query req !! "apiKey") in
     let device :=
       js_or_lit (js_or (headers req !! "x-device-id") (query req !! "deviceId"))
                 "unknown_device" in
     if unauthorized env apiKey then
       mret {| status := 401;
               json := {[ "error" := JStr "Unauthorized: invalid api key" ]} |}
     else
       let buffer := body req in
       if no_image buffer then
         mret {| status := 400;
                 json := {[ "error" := JStr "No image uploaded" ]} |}
       else
         let folder := "esp32/" +:+ device in
         uploadResult ← cloudinary_upload c folder buffer;
         savedDoc ←
           try_catch
             (docs ← get_collection;
              let imgDoc := Image_new c docs device uploadResult in
              saved ← Image_save c imgDoc;
              emit (ConsoleLog "Saved image metadata to MongoDB, id=");;
              mret (Some saved))
             (λ saveErr,
                emit (ConsoleWarn "Failed to save image metadata to MongoDB:");;
                mret None);
         telegram_notify env c device uploadResult;;
         let resp := upload_json uploadResult in
         let resp :=
           match savedDoc with
           | Some d =>
               <["savedAt" := JDate (savedAt_of d)]>
                 (<["imageId" := JOid (_id d)]> resp)
           | None => resp
           end in
         mret {| status := 200; json := resp |})
    (λ err,
       emit (ConsoleError "Upload error:");;
       mret {| status := 500; json := {[ "error" := JStr err ]} |}).

(** The handler of [unnamed/part_000], lines 29-99: the same pipeline
    with no metadata store.  Its caption formats the time with the host's
    defaults (line 67): in a run of this handler that is what
    [toLocaleString c] stands for. *)
Definition post_upload_part_000 (env : gmap string string) (c : Collab)
    (req : Request) : M Response :=
  try_catch
    (emit (ConsoleLog "Received");;
     let apiKey := js_or (headers req !! "x-api-key") (query req !! "apiKey") in
     let device :=
       js_or_lit (js_or (headers req !! "x-device-id") (query req !! "deviceId"))
                 "unknown_device" in
     if unauthorized env apiKey then
       mret {| status := 401;
               json := {[ "error" := JStr "Unauthorized: invalid api key" ]} |}
     else
       let buffer := body req in
       if no_image buffer then
         mret {| status := 400;
                 json := {[ "error" := JStr "No image uploaded" ]} |}
       else
         let folder := "esp32/" +:+ device in
         uploadResult ← cloudinary_upload c folder buffer;
         telegram_notify env c device uploadResult;;
         mret {| status := 200; json := upload_json uploadResult |})
    (λ err,
       emit (ConsoleError "Upload error:");;
       mret {| status := 500; json := {[ "error" := JStr err ]} |}).

(** ** Running a handler *)

(** The run of a handler: the response it sends, if it sends one, and
    the final state.  No response is sent when the process ends on an
    uncaught exception. *)
Definition run (h : M Response) (w : World) : option Response * World :=
  match h w with
  | (inr r, w') => (Some r, w')
  | (inl _, w') => (None, w')
  end.

Definition response_of (h : M Response) (w : World) : option Response :=
  (run h w).1.

Definition world_after (h : M Response) (w : World) : World :=
  (run h w).2.

(** The events a handler adds to the trace of the state it starts in. *)
Definition new_events (h : M Response) (w : World) : list Event :=
  drop (List.length (trace w)) (trace (world_after h w)).

(** ** Vocabulary of the properties *)

(** The API key a request supplies: the header [x-api-key], else the
    query parameter [apiKey]. *)
Definition supplied_key (req : Request) : option string :=
  js_or (headers req !! "x-api-key") (query req !! "apiKey").

(** The device a request names, [unknown_device] by default. *)
Definition device_of (req : Request) : string :=
  js_or_lit (js_or (headers req !! "x-device-id") (query req !! "deviceId"))
            "unknown_device".

(** No key at all: neither place holds a non-empty string. *)
Definition key_missing (req : Request) : Prop :=
  supplied_key req = None ∨ supplied_key req = Some "".

(** The supplied key is the configured secret. *)
Definition key_valid (env : gmap string string) (req : Request) : Prop :=
  ∃ k, k ≠ "" ∧ supplied_key req = Some k ∧ env !! "DEVICE_API_KEY" = Some k.

(** The body is an image of at least one byte. *)
Definition body_nonempty (req : Request) : Prop :=
  ∃ data, body req = BBuffer data ∧ data ≠ [].

(** The body is missing, or an image of no byte. *)
Definition body_empty_or_missing (req : Request) : Prop :=
  body req = BUndefined ∨ body req = BBuffer [].

(** The records of a listing response. *)
Definition images_of (r : Response) : list (gmap string jsval) :=
  match json r !! "images" with
  | Some (JArr items) => items
  | _ => []
  end.

(** The [createdAt] of a returned record. *)
Definition created_of (o : gmap string jsval) : option Z :=
  match o !! "createdAt" with
  | Some (JDate t) => Some t
  | _ => None
  end.

(** A handler made no call to a collaborator. *)
Definition no_collaborator_call (h : M Response) (w : World) : Prop :=
  Forall (λ e, is_collaborator_call e = false) (new_events h w).

(** What an early exit of [POST /upload] leaves: the error answer, and
    the state with one more log line. *)
Definition answer (w : World) (st : Z) (msg : string)
    : option Response * World :=
  (Some {| status := st; json := {[ "error" := JStr msg ]} |},
   {| collection := collection w;
      trace := (trace w ++ [ConsoleLog "Received"])%list |}).

(** The Cloudinary folder of a request's upload. *)
Definition folder_of (req : Request) : string := "esp32/" +:+ device_of req.

(** The document the upload handler builds from the storage result [r]
    in the state [w], and the one [save()] stores for it. *)
Definition built_doc (c : Collab) (w : World) (req : Request)
    (r : Cloudinary.result) : ImageDoc :=
  Image_new c (collection w) (device_of req) r.

Definition stored_doc (c : Collab) (w : World) (req : Request)
    (r : Cloudinary.result) : ImageDoc :=
  stamped (Date_now c) (built_doc c w req r).

(** What [save()] answers for the document the upload handler builds
    from the storage result [r], in the state [w]: the stored document,
    or the error it throws. *)
Definition save_outcome (c : Collab) (w : World) (req : Request)
    (r : Cloudinary.result) : JsError + ImageDoc :=
  match (Image_save c (built_doc c w req r) w).1 with
  | inr d => inr d
  | inl (Thrown e) | inl (Uncaught e) => inl e
  end.

(** What [telegram_notify] adds to the trace: nothing unless both the bot
    token and the chat are configured, else the request and, when it is
    rejected, the warning. *)
Definition notify_events (env : gmap string string) (c : Collab)
    (device : string) (r : Cloudinary.result) : list Event :=
  let tgToken := env !! "TELEGRAM_BOT_TOKEN" in
  let tgChat := env !! "TELEGRAM_CHAT_ID" in
  if truthy tgToken && truthy tgChat then
    let caption := "Visitor at " +:+ device +:+ " — " +:+ toLocaleString c in
    let tgUrl :=
      "https://api.telegram.org/bot" +:+ default "" tgToken +:+ "/sendPhoto" in
    let chat := default "" tgChat in
    let photo := Cloudinary.secure_url r in
    AxiosPost tgUrl chat photo caption ::
    match axios_post c tgUrl chat photo caption with
    | Some _ => [ConsoleWarn "Telegram notify failed:"]
    | None => []
    end
  else [].

(** ** A concrete scenario: one device, one upload *)

Module Scenario.
Definition result : Cloudinary.result :=
  {| Cloudinary.secure_url := "https://cdn/x.jpg";
     Cloudinary.public_id := "esp32/esp32-1/abc";
     Cloudinary.width := 640;
     Cloudinary.height := 480;
     Cloudinary.bytes := 51200 |}.

(** Every collaborator answers. *)
Definition up : Collab :=
  {| upload_callback := λ _ _, inr result;
     new_ObjectId := λ docs,
       {| getTimestamp := 1700000000000;
          oid_rest := Z.of_nat (List.length docs) |};
     Date_now := 1700000000123;
     insert_error := λ _ _, None;
     find_error := λ _ _, None;
     limit_NaN_error := Some "MongoServerError: limit must be an integer";
     axios_post := λ _ _ _ _, None;
     toLocaleString := "14/11/2023, 10:13:20 pm" |}.

(** Cloudinary rejects the upload. *)
Definition storage_down : Collab :=
  {| upload_callback := λ _ _, inl "Error: Request Timeout";
     new_ObjectId := new_ObjectId up;
     Date_now := Date_now up;
     insert_error := insert_error up;
     find_error := find_error up;
     limit_NaN_error := limit_NaN_error up;
     axios_post := axios_post up;
     toLocaleString := toLocaleString up |}.

(** MongoDB refuses the insertion. *)
Definition mongo_down : Collab :=
  {| upload_callback := upload_callback up;
     new_ObjectId := new_ObjectId up;
     Date_now := Date_now up;
     insert_error := λ _ _, Some "MongoNetworkError: connection refused";
     find_error := find_error up;
     limit_NaN_error := limit_NaN_error up;
     axios_post := axios_post up;
     toLocaleString := toLocaleString up |}.

Definition env : gmap string string :=
  {[ "DEVICE_API_KEY" := "secret123";
     "TELEGRAM_BOT_TOKEN" := "42:token";
     "TELEGRAM_CHAT_ID" := "-1001" ]}.

(** The same configuration with no device key. *)
Definition env_no_secret : gmap string string :=
  {[ "TELEGRAM_BOT_TOKEN" := "42:token"; "TELEGRAM_CHAT_ID" := "-1001" ]}.

Definition jpeg : list Byte.byte := [Byte.xff; Byte.xd8; Byte.xff; Byte.xd9].

Definition upload_req : Request :=
  {| headers := {[ "x-api-key" := "secret123"; "x-device-id" := "esp32-1" ]};
     query := ∅;
     body := BBuffer jpeg |}.

Definition wrong_key_req : Request :=
  {| headers := {[ "x-api-key" := "letmein"; "x-device-id" := "esp32-1" ]};
     query := {[ "apiKey" := "secret123" ]};
     body := BBuffer jpeg |}.

Definition empty_req : Request :=
  {| headers := {[ "x-device-id" := "esp32-1" ]};
     query := {[ "apiKey" := "secret123" ]};
     body := BBuffer [] |}.

Definition listing (q : gmap string string) : Request :=
  {| headers := ∅; query := q; body := BUndefined |}.

Definition empty_world : World := {| collection := []; trace := [] |}.

(** The state after the upload of [upload_req]. *)
Definition one_image : World :=
  world_after (post_upload env up upload_req) empty_world.
End Scenario.

(** The document stored by the scenario's upload, and the record
    [GET /images] returns for it. *)
Definition scenario_doc : ImageDoc :=
  {| _id := {| getTimestamp := 1700000000000; oid_rest := 0 |};
     deviceId := "esp32-1";
     url := "https://cdn/x.jpg";
     public_id := Some "esp32/esp32-1/abc";
     width := Some 640%Z;
     height := Some 480%Z;
     bytes := Some 51200%Z;
     createdAt := Some 1700000000123%Z;
     updatedAt := Some 1700000000123%Z;
     __v := 0 |}.

Definition scenario_record : gmap string jsval :=
  select images_projection (lean scenario_doc).

Definition scenario_listing : Response :=
  {| status := 200;
     json := {[ "ok" := JBool true; "images" := JArr [scenario_record] ]} |}.

(** ** Vocabulary of the further properties *)

(** The bodies the upload handlers answer 400 to. *)
Definition body_rejected (req : Request) : Prop :=
  body req = BUndefined ∨ body req = BBuffer [] ∨ body req = BObject (Some 0%Z).

(** The bodies that pass the check of the upload handlers and are no
    [Buffer]: the objects whose [length] is not [0]. *)
Definition body_unstreamable (req : Request) : Prop :=
  ∃ len, body req = BObject len ∧ len ≠ Some 0%Z.

(** Where a request to the Telegram bot API goes and what it shows: its
    endpoint, chat and photo, the caption left aside. *)
Definition notification_target (e : Event) : option (string * string * string) :=
  match e with
  | AxiosPost endpoint chat_id photo _ => Some (endpoint, chat_id, photo)
  | _ => None
  end.

(** A listing request without its [deviceId] parameter. *)
Definition without_deviceId (req : Request) : Request :=
  {| headers := headers req;
     query := delete "deviceId" (query req);
     body := body req |}.

(** Both Telegram settings are non-empty. *)
Definition telegram_configured (env : gmap string string) : bool :=
  truthy (env !! "TELEGRAM_BOT_TOKEN") && truthy (env !! "TELEGRAM_CHAT_ID").

(** The request sent to the Telegram bot API for the storage result [r]. *)
Definition telegram_request (env : gmap string string) (c : Collab)
    (req : Request) (r : Cloudinary.result) : Event :=
  AxiosPost
    ("https://api.telegram.org/bot"
       +:+ default "" (env !! "TELEGRAM_BOT_TOKEN") +:+ "/sendPhoto")
    (default "" (env !! "TELEGRAM_CHAT_ID"))
    (Cloudinary.secure_url r)
    ("Visitor at " +:+ device_of req +:+ " — " +:+ toLocaleString c).

(** The filter [GET /images] builds: the [deviceId] parameter when it is a
    non-empty string. *)
Definition listing_filter (req : Request) : option string :=
  if truthy (query req !! "deviceId") then query req !! "deviceId" else None.

(** The stored documents a listing request selects. *)
Definition matching_docs (req : Request) (w : World) : list ImageDoc :=
  match listing_filter req with
  | Some x => filter (λ d, deviceId d = x) (collection w)
  | None => collection w
  end.

(** The record [GET /images] returns for a stored document. *)
Definition listed : ImageDoc → gmap string jsval :=
  select images_projection ∘ lean.

(** A response without the two fields that come from the metadata store. *)
Definition strip_saved (r : Response) : Response :=
  {| status := status r;
     json := delete "savedAt" (delete "imageId" (json r)) |}.

(** The scenario's collaborators with the Telegram API unreachable, and
    its environment without the Telegram settings. *)
Definition scenario_telegram_down : Collab :=
  {| upload_callback := upload_callback Scenario.up;
     new_ObjectId := new_ObjectId Scenario.up;
     Date_now := Date_now Scenario.up;
     insert_error := insert_error Scenario.up;
     find_error := find_error Scenario.up;
     limit_NaN_error := limit_NaN_error Scenario.up;
     axios_post := λ _ _ _ _, Some "AxiosError: timeout of 10000ms exceeded";
     toLocaleString := "15/11/2023, 1:00:00 am" |}.

Definition scenario_env_quiet : gmap string string :=
  {[ "DEVICE_API_KEY" := "secret123" ]}.

(** A request with the key and a body that a JSON parser left as an
    object, and a [limit] of 5 behind a no-break space (U+00A0). *)
Definition scenario_parsed_req : Request :=
  {| headers := {[ "x-api-key" := "secret123" ]};
     query := ∅;
     body := BObject None |}.

Definition nbsp_5 : string :=
  String (ascii_of_nat 194) (String (ascii_of_nat 160) "5").

(** The scenario's collaborators with MongoDB refusing queries. *)
Definition scenario_find_down : Collab :=
  {| upload_callback := upload_callback Scenario.up;
     new_ObjectId := new_ObjectId Scenario.up;
     Date_now := Date_now Scenario.up;
     insert_error := insert_error Scenario.up;
     find_error := λ _ _, Some "MongooseError: buffering timed out";
     limit_NaN_error := limit_NaN_error Scenario.up;
     axios_post := axios_post Scenario.up;
     toLocaleString := toLocaleString Scenario.up |}.

(** The key a request presents is [k]: in the header, or, the header being
    absent or empty, in the query. *)
Definition key_presented (req : Request) (k : string) : Prop :=
  headers req !! "x-api-key" = Some k
  ∨ (truthy (headers req !! "x-api-key") = false
     ∧ query req !! "apiKey" = Some k).

(** The device a request names is [d]: in the header, or, the header
    being absent or empty, in the query, or, both being so, the default. *)
Definition device_named (req : Request) (d : string) : Prop :=
  (headers req !! "x-device-id" = Some d ∧ d ≠ "")
  ∨ (truthy (headers req !! "x-device-id") = false
     ∧ query req !! "deviceId" = Some d ∧ d ≠ "")
  ∨ (truthy (headers req !! "x-device-id") = false
     ∧ truthy (query req !! "deviceId") = false
     ∧ d = "unknown_device").

(** A request with the key in the header, an empty device header and the
    device in the query. *)
Definition scenario_query_device_req : Request :=
  {| headers := {[ "x-api-key" := "secret123"; "x-device-id" := "" ]};
     query := {[ "deviceId" := "porch-cam"; "apiKey" := "ignored" ]};
     body := BBuffer Scenario.jpeg |}.

(** ** Tactics *)

(** Unfolding of the monad's operations, for stepping through a handler. *)
Ltac msimpl :=
  repeat (progress (cbn;
    unfold mbind, M_bind, mret, M_ret, emit, throw, uncaught, await,
           get_collection, put_collection, try_catch)); cbn.

(** Membership of a given key in a given list of keys, by evaluation. *)
Ltac key_dec :=
  match goal with
  | |- ?P => apply (@bool_decide_unpack P _); vm_compute; exact I
  end.

(** ** Lemmas on the monad and on the trace *)

Lemma new_events_app (h : M Response) (w : World) (evs : list Event) :
  trace (world_after h w) = (trace w ++ evs)%list → new_events h w = evs.
Proof.
  intros E. unfold new_events. rewrite E. apply drop_app_length.
Qed.

Lemma truthy_Some_inv (v : option string) :
  truthy v = true → ∃ s, v = Some s ∧ s ≠ "".
Proof.
  destruct v as [s|]; simpl; [|discriminate].
  intros E. exists s. split; [reflexivity|].
  intros ->. discriminate.
Qed.

Lemma truthy_false_inv (v : option string) :
  truthy v = false → v = None ∨ v = Some "".
Proof.
  destruct v as [s|]; simpl; [|auto].
  rewrite negb_false_iff. intros E%String.eqb_eq. subst. auto.
Qed.

Lemma key_valid_authorized env req :
  key_valid env req → unauthorized env (supplied_key req) = false.
Proof.
  intros (k & Hk & E1 & E2). unfold unauthorized.
  rewrite E1, E2. simpl. rewrite bool_decide_eq_true_2 by reflexivity.
  destruct (String.eqb_spec k ""); [contradiction|reflexivity].
Qed.

(** ** What the two checks of [POST /upload] accept *)

(** The body check rejects exactly [undefined], a [Buffer] of no byte,
    and an object whose [length] is [0]; any other object passes it. *)
Lemma no_image_spec (b : Body) :
  no_image b = true ↔ b = BUndefined ∨ b = BBuffer [] ∨ b = BObject (Some 0%Z).
Proof.
  destruct b as [|data|len]; simpl.
  - split; auto.
  - rewrite bool_decide_eq_true. split.
    + intros ->. auto.
    + intros [H | [H | H]]; congruence.
  - rewrite bool_decide_eq_true. split.
    + intros ->. auto.
    + intros [H | [H | H]]; congruence.
Qed.

(** The key check accepts exactly a non-empty supplied key equal to the
    configured secret. *)
Lemma unauthorized_false_iff env req :
  unauthorized env (supplied_key req) = false ↔ key_valid env req.
Proof.
  split; [|apply key_valid_authorized].
  unfold unauthorized, key_valid. intros U.
  apply orb_false_elim in U as [T E].
  apply negb_false_iff in T. apply negb_false_iff in E.
  apply truthy_Some_inv in T as (k & K & NE).
  apply bool_decide_eq_true in E.
  exists k. rewrite <- E. auto.
Qed.

(** ** The two early exits of [POST /upload] *)

Section EarlyExit.
Context (env : gmap string string) (c : Collab) (req : Request) (w : World).

Lemma post_upload_401 :
  unauthorized env (supplied_key req) = true →
  run (post_upload env c req) w
  = answer w 401 "Unauthorized: invalid api key".
Proof.
  intros U. unfold run, post_upload, try_catch, answer.
  unfold supplied_key in U. cbn. rewrite U. reflexivity.
Qed.

Lemma post_upload_part_000_401 :
  unauthorized env (supplied_key req) = true →
  run (post_upload_part_000 env c req) w
  = answer w 401 "Unauthorized: invalid api key".
Proof.
  intros U. unfold run, post_upload_part_000, try_catch, answer.
  unfold supplied_key in U. cbn. rewrite U. reflexivity.
Qed.

Lemma post_upload_400 :
  unauthorized env (supplied_key req) = false →
  no_image (body req) = true →
  run (post_upload env c req) w = answer w 400 "No image uploaded".
Proof.
  intros U N. unfold run, post_upload, try_catch, answer.
  unfold supplied_key in U. cbn. rewrite U, N. reflexivity.
Qed.

Lemma post_upload_part_000_400 :
  unauthorized env (supplied_key req) = false →
  no_image (body req) = true →
  run (post_upload_part_000 env c req) w = answer w 400 "No image uploaded".
Proof.
  intros U N. unfold run, post_upload_part_000, try_catch, answer.
  unfold supplied_key in U. cbn. rewrite U, N. reflexivity.
Qed.
End EarlyExit.

(** ** The notification step *)

(** The notification never throws and never touches the collection. *)
Lemma telegram_notify_run env c device r w :
  telegram_notify env c device r w
  = (inr tt, {| collection := collection w;
                trace := (trace w ++ notify_events env c device r)%list |}).
Proof.
  unfold telegram_notify, notify_events.
  destruct (truthy (env !! "TELEGRAM_BOT_TOKEN") && truthy (env !! "TELEGRAM_CHAT_ID")).
  - msimpl. destruct (axios_post c _ _ _ _); msimpl.
    + rewrite <- app_assoc. reflexivity.
    + reflexivity.
  - msimpl. rewrite app_nil_r. destruct w; reflexivity.
Qed.

Lemma notify_events_no_storage_persistence env c device r :
  Forall (λ e, is_storage_call e = false ∧ is_persistence_call e = false)
         (notify_events env c device r).
Proof.
  unfold notify_events.
  destruct (_ && _); [|constructor].
  constructor; [by split|].
  destruct (axios_post _ _ _ _ _); repeat constructor.
Qed.

(** ** The storage call *)

(** Only a [Buffer] can be stored. *)
Lemma upload_stream_inr_buffer c folder buffer r :
  upload_stream c folder buffer = inr r → ∃ data, buffer = BBuffer data.
Proof. destruct buffer as [|data|len]; [discriminate | by exists data | discriminate]. Qed.

Lemma cloudinary_upload_buffer c folder buffer w data :
  buffer = BBuffer data →
  cloudinary_upload c folder buffer w
  = (match upload_stream c folder buffer with
     | inl e => inl (Thrown e)
     | inr r => inr r
     end,
     {| collection := collection w;
        trace := (trace w ++ [UploadStream folder buffer])%list |}).
Proof.
  intros ->. unfold cloudinary_upload. msimpl.
  by destruct (upload_callback c folder data).
Qed.

Lemma cloudinary_upload_other c folder buffer w :
  (∀ data, buffer ≠ BBuffer data) →
  cloudinary_upload c folder buffer w
  = (inl (Uncaught write_error),
     {| collection := collection w;
        trace := (trace w ++ [UploadStream folder buffer])%list |}).
Proof.
  intros B. unfold cloudinary_upload.
  destruct buffer as [|data|len]; [done | by destruct (B data) | done].
Qed.

(** ** The upload path of [app.js] past the two checks *)

Section UploadPath.
Context (env : gmap string string) (c : Collab) (req : Request) (w : World).
Hypothesis authorized : unauthorized env (supplied_key req) = false.
Hypothesis image : no_image (body req) = false.

(** The storage call fails: the rejection reaches the outer [catch]. *)
Lemma post_upload_storage_error data err :
  body req = BBuffer data →
  upload_stream c (folder_of req) (body req) = inl err →
  run (post_upload env c req) w
  = (Some {| status := 500; json := {[ "error" := JStr err ]} |},
     {| collection := collection w;
        trace := (trace w ++ [ConsoleLog "Received";
                              UploadStream (folder_of req) (body req);
                              ConsoleError "Upload error:"])%list |}).
Proof.
  intros B S. unfold run, post_upload, try_catch.
  unfold supplied_key in authorized. unfold folder_of in *. unfold device_of in S.
  msimpl. rewrite authorized, image. msimpl.
  rewrite (cloudinary_upload_buffer c _ _ _ data B), S. msimpl.
  rewrite <- !app_assoc. reflexivity.
Qed.

Lemma post_upload_part_000_storage_error data err :
  body req = BBuffer data →
  upload_stream c (folder_of req) (body req) = inl err →
  run (post_upload_part_000 env c req) w
  = (Some {| status := 500; json := {[ "error" := JStr err ]} |},
     {| collection := collection w;
        trace := (trace w ++ [ConsoleLog "Received";
                              UploadStream (folder_of req) (body req);
                              ConsoleError "Upload error:"])%list |}).
Proof.
  intros B S. unfold run, post_upload_part_000, try_catch.
  unfold supplied_key in authorized. unfold folder_of in *. unfold device_of in S.
  msimpl. rewrite authorized, image. msimpl.
  rewrite (cloudinary_upload_buffer c _ _ _ data B), S. msimpl.
  rewrite <- !app_assoc. reflexivity.
Qed.

(** A body that passed the check and is no [Buffer]: the write throws
    where nothing catches it, and no response is sent. *)
Lemma post_upload_crash :
  (∀ data, body req ≠ BBuffer data) →
  run (post_upload env c req) w
  = (None,
     {| collection := collection w;
        trace := (trace w ++ [ConsoleLog "Received";
                              UploadStream (folder_of req) (body req)])%list |}).
Proof.
  intros B. unfold run, post_upload, try_catch.
  unfold supplied_key in authorized. unfold folder_of, device_of in *.
  msimpl. rewrite authorized, image. msimpl.
  rewrite (cloudinary_upload_other c _ _ _ B). msimpl.
  rewrite <- !app_assoc. reflexivity.
Qed.

Lemma post_upload_part_000_crash :
  (∀ data, body req ≠ BBuffer data) →
  run (post_upload_part_000 env c req) w
  = (None,
     {| collection := collection w;
        trace := (trace w ++ [ConsoleLog "Received";
                              UploadStream (folder_of req) (body req)])%list |}).
Proof.
  intros B. unfold run, post_upload_part_000, try_catch.
  unfold supplied_key in authorized. unfold folder_of, device_of in *.
  msimpl. rewrite authorized, image. msimpl.
  rewrite (cloudinary_upload_other c _ _ _ B). msimpl.
  rewrite <- !app_assoc. reflexivity.
Qed.

(** The storage call succeeds and [save()] fails, on validation or on
    the insertion. *)
Lemma post_upload_save_error r :
  upload_stream c (folder_of req) (body req) = inr r →
  Cloudinary.secure_url r = ""
  ∨ is_Some (insert_error c (stored_doc c w req r) (collection w)) →
  run (post_upload env c req) w
  = (Some {| status := 200; json := upload_json r |},
     {| collection := collection w;
        trace := (trace w ++ [ConsoleLog "Received";
                              UploadStream (folder_of req) (body req);
                              ImageSave (built_doc c w req r);
                              ConsoleWarn "Failed to save image metadata to MongoDB:"]
                          ++ notify_events env c (device_of req) r)%list |}).
Proof.
  intros S F. destruct (upload_stream_inr_buffer _ _ _ _ S) as [data B].
  unfold run, post_upload, try_catch.
  unfold supplied_key in authorized. unfold folder_of, stored_doc, built_doc in *.
  unfold device_of in *.
  msimpl. rewrite authorized, image. msimpl.
  rewrite (cloudinary_upload_buffer c _ _ _ data B), S. msimpl.
  unfold Image_save. msimpl.
  destruct (String.eqb_spec (Cloudinary.secure_url r) "") as [E|NE].
  - msimpl. rewrite telegram_notify_run. msimpl.
    rewrite <- !app_assoc. reflexivity.
  - destruct F as [E|[e F]]; [contradiction|].
    msimpl. rewrite F. msimpl. rewrite telegram_notify_run. msimpl.
    rewrite <- !app_assoc. reflexivity.
Qed.

(** The storage call and [save()] both succeed. *)
Lemma post_upload_saved r :
  upload_stream c (folder_of req) (body req) = inr r →
  Cloudinary.secure_url r ≠ "" →
  insert_error c (stored_doc c w req r) (collection w) = None →
  run (post_upload env c req) w
  = (Some {| status := 200;
             json := <["savedAt" := JDate (Date_now c)]>
                       (<["imageId" := JOid (_id (stored_doc c w req r))]>
                          (upload_json r)) |},
     {| collection := (collection w ++ [stored_doc c w req r])%list;
        trace := (trace w ++ [ConsoleLog "Received";
                              UploadStream (folder_of req) (body req);
                              ImageSave (built_doc c w req r);
                              ConsoleLog "Saved image metadata to MongoDB, id="]
                          ++ notify_events env c (device_of req) r)%list |}).
Proof.
  intros S NE I. destruct (upload_stream_inr_buffer _ _ _ _ S) as [data B].
  unfold run, post_upload, try_catch.
  unfold supplied_key in authorized. unfold folder_of, stored_doc, built_doc in *.
  unfold device_of in *.
  msimpl. rewrite authorized, image. msimpl.
  rewrite (cloudinary_upload_buffer c _ _ _ data B), S. msimpl.
  unfold Image_save. msimpl.
  destruct (String.eqb_spec (Cloudinary.secure_url r) "") as [E|_];
    [contradiction|].
  msimpl. cbn in I. rewrite I. msimpl. rewrite telegram_notify_run. msimpl.
  rewrite <- !app_assoc. reflexivity.
Qed.

(** The storage call succeeds, in the handler without a store. *)
Lemma post_upload_part_000_stored r :
  upload_stream c (folder_of req) (body req) = inr r →
  run (post_upload_part_000 env c req) w
  = (Some {| status := 200; json := upload_json r |},
     {| collection := collection w;
        trace := (trace w ++ [ConsoleLog "Received";
                              UploadStream (folder_of req) (body req)]
                          ++ notify_events env c (device_of req) r)%list |}).
Proof.
  intros S. destruct (upload_stream_inr_buffer _ _ _ _ S) as [data B].
  unfold run, post_upload_part_000, try_catch.
  unfold supplied_key in authorized. unfold folder_of in *. unfold device_of in *.
  msimpl. rewrite authorized, image. msimpl.
  rewrite (cloudinary_upload_buffer c _ _ _ data B), S. msimpl.
  rewrite telegram_notify_run. msimpl.
  rewrite <- !app_assoc. reflexivity.
Qed.
End UploadPath.

(** ** Outcome of the persistence step *)

Lemma save_outcome_error c w req r e :
  save_outcome c w req r = inl e →
  Cloudinary.secure_url r = ""
  ∨ is_Some (insert_error c (stored_doc c w req r) (collection w)).
Proof.
  unfold save_outcome, stored_doc, built_doc, Image_save. msimpl.
  destruct (String.eqb_spec (Cloudinary.secure_url r) "") as [E|NE]; [auto|].
  msimpl. destruct (insert_error c _ _) eqn:I; [eauto|].
  msimpl. discriminate.
Qed.

Lemma save_outcome_saved c w req r d :
  save_outcome c w req r = inr d →
  Cloudinary.secure_url r ≠ ""
  ∧ insert_error c d (collection w) = None
  ∧ d = stored_doc c w req r.
Proof.
  unfold save_outcome, stored_doc, built_doc, Image_save. msimpl.
  destruct (String.eqb_spec (Cloudinary.secure_url r) "") as [E|NE];
    [discriminate|].
  msimpl. destruct (insert_error c _ _) eqn:I; msimpl; [discriminate|].
  intros [= <-]. auto.
Qed.

Lemma body_nonempty_image req : body_nonempty req → no_image (body req) = false.
Proof.
  intros (data & -> & NE). simpl. by apply bool_decide_eq_false_2.
Qed.

Lemma body_empty_no_image req :
  body_empty_or_missing req → no_image (body req) = true.
Proof. intros [-> | ->]; reflexivity. Qed.

Lemma bad_key_unauthorized env req :
  key_missing req ∨ supplied_key req ≠ env !! "DEVICE_API_KEY" →
  unauthorized env (supplied_key req) = true.
Proof.
  unfold unauthorized, key_missing.
  intros [[-> | ->] | NE]; [reflexivity..|].
  rewrite bool_decide_eq_false_2 by assumption. apply orb_true_r.
Qed.

Lemma no_secret_unauthorized env req :
  env !! "DEVICE_API_KEY" = None ∨ env !! "DEVICE_API_KEY" = Some "" →
  unauthorized env (supplied_key req) = true.
Proof.
  intros H. unfold unauthorized.
  destruct (truthy (supplied_key req)) eqn:T; [|reflexivity].
  apply truthy_Some_inv in T as (s & -> & NE). simpl.
  rewrite bool_decide_eq_false_2; [reflexivity|].
  destruct H as [-> | ->]; congruence.
Qed.

(** An early exit leaves the state as it was, but for the first log line. *)
Lemma answer_early_exit (h : M Response) (w : World) st msg :
  run h w = answer w st msg →
  response_of h w
  = Some {| status := st; json := {[ "error" := JStr msg ]} |}
  ∧ collection (world_after h w) = collection w
  ∧ new_events h w = [ConsoleLog "Received"]
  ∧ no_collaborator_call h w.
Proof.
  intros R.
  assert (N : new_events h w = [ConsoleLog "Received"]).
  { apply new_events_app. unfold world_after. rewrite R. reflexivity. }
  unfold response_of, world_after, no_collaborator_call.
  rewrite N, R. repeat split. repeat constructor.
Qed.

(** ** Properties of [POST /upload] *)

(** C1: a request whose API key (header [x-api-key], else query [apiKey])
    is missing or is not the configured secret is answered 401 with a JSON
    error body, by the handler of [app.js] and by that of [part_000]; the
    collection is untouched and the only event is the first log line, so
    no storage, persistence or notification call is made. *)
Theorem upload_bad_key_401 env c req w :
  key_missing req ∨ supplied_key req ≠ env !! "DEVICE_API_KEY" →
  ∀ h, h = post_upload env c req ∨ h = post_upload_part_000 env c req →
    response_of h w
    = Some {| status := 401;
              json := {[ "error" := JStr "Unauthorized: invalid api key" ]} |}
    ∧ collection (world_after h w) = collection w
    ∧ new_events h w = [ConsoleLog "Received"]
    ∧ no_collaborator_call h w.
Proof.
  intros U%(bad_key_unauthorized env) h [-> | ->]; apply answer_early_exit.
  - by apply post_upload_401.
  - by apply post_upload_part_000_401.
Qed.

Lemma upload_bad_key_401_witness :
  supplied_key Scenario.wrong_key_req ≠ Scenario.env !! "DEVICE_API_KEY"
  ∧ response_of (post_upload Scenario.env Scenario.up Scenario.wrong_key_req)
                Scenario.empty_world
    = Some {| status := 401;
              json := {[ "error" := JStr "Unauthorized: invalid api key" ]} |}.
Proof.
  assert (H : supplied_key Scenario.wrong_key_req
              ≠ Scenario.env !! "DEVICE_API_KEY") by (vm_compute; discriminate).
  split; [exact H|].
  apply (upload_bad_key_401 Scenario.env Scenario.up Scenario.wrong_key_req
           Scenario.empty_world (or_intror H) _ (or_introl eq_refl)).
Defined.

(** C10: when [DEVICE_API_KEY] is unset or empty, every request is
    answered 401, whatever key it supplies, by both handlers. *)
Theorem upload_no_secret_401 env c req w :
  env !! "DEVICE_API_KEY" = None ∨ env !! "DEVICE_API_KEY" = Some "" →
  ∀ h, h = post_upload env c req ∨ h = post_upload_part_000 env c req →
    response_of h w
    = Some {| status := 401;
              json := {[ "error" := JStr "Unauthorized: invalid api key" ]} |}
    ∧ no_collaborator_call h w.
Proof.
  intros U%(no_secret_unauthorized env req) h [-> | ->].
  - apply (post_upload_401 env c req w) in U.
    apply answer_early_exit in U. tauto.
  - apply (post_upload_part_000_401 env c req w) in U.
    apply answer_early_exit in U. tauto.
Qed.

Lemma upload_no_secret_401_witness :
  Scenario.env_no_secret !! "DEVICE_API_KEY" = None
  ∧ response_of (post_upload Scenario.env_no_secret Scenario.up
                             Scenario.upload_req) Scenario.empty_world
    = Some {| status := 401;
              json := {[ "error" := JStr "Unauthorized: invalid api key" ]} |}.
Proof.
  split; [reflexivity|].
  apply (upload_no_secret_401 Scenario.env_no_secret Scenario.up
           Scenario.upload_req Scenario.empty_world (or_introl eq_refl)
           _ (or_introl eq_refl)).
Defined.

(** C9: a request with the valid key whose body is missing or empty is
    answered 400 with a JSON error body, by both handlers; the collection
    is untouched and no collaborator is called. *)
Theorem upload_empty_body_400 env c req w :
  key_valid env req →
  body_empty_or_missing req →
  ∀ h, h = post_upload env c req ∨ h = post_upload_part_000 env c req →
    response_of h w
    = Some {| status := 400; json := {[ "error" := JStr "No image uploaded" ]} |}
    ∧ collection (world_after h w) = collection w
    ∧ new_events h w = [ConsoleLog "Received"]
    ∧ no_collaborator_call h w.
Proof.
  intros K%key_valid_authorized B%body_empty_no_image h [-> | ->];
    apply answer_early_exit.
  - by apply post_upload_400.
  - by apply post_upload_part_000_400.
Qed.

Lemma scenario_empty_req_key_valid : key_valid Scenario.env Scenario.empty_req.
Proof. exists "secret123". repeat split. discriminate. Defined.

Lemma scenario_upload_req_key_valid : key_valid Scenario.env Scenario.upload_req.
Proof. exists "secret123". repeat split. discriminate. Defined.

Lemma scenario_upload_req_body : body_nonempty Scenario.upload_req.
Proof. exists Scenario.jpeg. split; [reflexivity | discriminate]. Defined.

Lemma upload_empty_body_400_witness :
  response_of (post_upload Scenario.env Scenario.up Scenario.empty_req)
              Scenario.empty_world
  = Some {| status := 400; json := {[ "error" := JStr "No image uploaded" ]} |}.
Proof.
  apply (upload_empty_body_400 Scenario.env Scenario.up Scenario.empty_req
           Scenario.empty_world scenario_empty_req_key_valid
           (or_intror eq_refl) _ (or_introl eq_refl)).
Defined.

(** C2: with the valid key and a non-empty body, when the storage call
    fails with [err] the answer is 500 with [String(err)] as the error;
    the collection is unchanged, and the trace shows the storage call and
    neither a [save()] nor a Telegram request. *)
Theorem upload_storage_failure_500 env c req w err :
  key_valid env req →
  body_nonempty req →
  upload_stream c (folder_of req) (body req) = inl err →
  let h := post_upload env c req in
  response_of h w = Some {| status := 500; json := {[ "error" := JStr err ]} |}
  ∧ collection (world_after h w) = collection w
  ∧ new_events h w = [ConsoleLog "Received";
                      UploadStream (folder_of req) (body req);
                      ConsoleError "Upload error:"]
  ∧ Forall (λ e, is_persistence_call e = false ∧ is_notification_call e = false)
           (new_events h w).
Proof.
  intros K%key_valid_authorized BN S h.
  pose proof (body_nonempty_image req BN) as B. destruct BN as (data & HB & _).
  pose proof (post_upload_storage_error env c req w K B data err HB S) as R.
  assert (N : new_events h w
              = [ConsoleLog "Received";
                 UploadStream (folder_of req) (body req);
                 ConsoleError "Upload error:"]).
  { apply new_events_app. unfold world_after. subst h. rewrite R. reflexivity. }
  rewrite N. unfold response_of, world_after. subst h. rewrite R.
  repeat split; repeat constructor.
Qed.

Lemma upload_storage_failure_500_witness :
  response_of (post_upload Scenario.env Scenario.storage_down Scenario.upload_req)
              Scenario.empty_world
  = Some {| status := 500;
            json := {[ "error" := JStr "Error: Request Timeout" ]} |}.
Proof.
  apply (upload_storage_failure_500 Scenario.env Scenario.storage_down
           Scenario.upload_req Scenario.empty_world "Error: Request Timeout"
           scenario_upload_req_key_valid scenario_upload_req_body eq_refl).
Defined.

(** C3: with the valid key and a non-empty body, when the storage call
    succeeds with [r] and [save()] fails, the answer is still 200 and
    carries [ok], [url], [public_id], [width], [height] and [bytes] from
    [r], without [imageId] or [savedAt]; nothing is stored.  This holds
    whatever the Telegram configuration and the fate of the
    notification. *)
Theorem upload_persistence_failure_200 env c req w r e :
  key_valid env req →
  body_nonempty req →
  upload_stream c (folder_of req) (body req) = inr r →
  save_outcome c w req r = inl e →
  ∃ resp,
    response_of (post_upload env c req) w = Some resp
    ∧ status resp = 200
    ∧ json resp !! "ok" = Some (JBool true)
    ∧ json resp !! "url" = Some (JStr (Cloudinary.secure_url r))
    ∧ json resp !! "public_id" = Some (JStr (Cloudinary.public_id r))
    ∧ json resp !! "width" = Some (JNum (Cloudinary.width r))
    ∧ json resp !! "height" = Some (JNum (Cloudinary.height r))
    ∧ json resp !! "bytes" = Some (JNum (Cloudinary.bytes r))
    ∧ json resp !! "imageId" = None
    ∧ json resp !! "savedAt" = None
    ∧ json resp !! "error" = None
    ∧ collection (world_after (post_upload env c req) w) = collection w.
Proof.
  intros K%key_valid_authorized B%body_nonempty_image S F%save_outcome_error.
  pose proof (post_upload_save_error env c req w K B r S F) as R.
  exists {| status := 200; json := upload_json r |}.
  unfold response_of, world_after. rewrite R.
  repeat split.
Qed.

Lemma upload_persistence_failure_200_witness :
  ∃ resp,
    response_of (post_upload Scenario.env Scenario.mongo_down Scenario.upload_req)
                Scenario.empty_world = Some resp
    ∧ status resp = 200
    ∧ json resp !! "url" = Some (JStr "https://cdn/x.jpg")
    ∧ json resp !! "imageId" = None.
Proof.
  destruct (upload_persistence_failure_200 Scenario.env Scenario.mongo_down
              Scenario.upload_req Scenario.empty_world Scenario.result
              "MongoNetworkError: connection refused"
              scenario_upload_req_key_valid scenario_upload_req_body
              eq_refl eq_refl)
    as (resp & R & St & _ & U & _ & _ & _ & _ & I & _).
  exists resp. auto.
Defined.

(** C4: with the valid key and a non-empty body, when the storage call
    succeeds with [r] and [save()] succeeds with the record [d], the
    answer is 200 and carries [ok], [url], [public_id], [width], [height]
    and [bytes] from [r], [imageId] as the identifier of [d], and
    [savedAt] as the creation time of [d]; [d] is the record added to the
    collection. *)
Theorem upload_success_200 env c req w r d :
  key_valid env req →
  body_nonempty req →
  upload_stream c (folder_of req) (body req) = inr r →
  save_outcome c w req r = inr d →
  ∃ resp,
    response_of (post_upload env c req) w = Some resp
    ∧ status resp = 200
    ∧ json resp !! "ok" = Some (JBool true)
    ∧ json resp !! "url" = Some (JStr (Cloudinary.secure_url r))
    ∧ json resp !! "public_id" = Some (JStr (Cloudinary.public_id r))
    ∧ json resp !! "width" = Some (JNum (Cloudinary.width r))
    ∧ json resp !! "height" = Some (JNum (Cloudinary.height r))
    ∧ json resp !! "bytes" = Some (JNum (Cloudinary.bytes r))
    ∧ json resp !! "imageId" = Some (JOid (_id d))
    ∧ (∃ t, createdAt d = Some t ∧ json resp !! "savedAt" = Some (JDate t))
    ∧ collection (world_after (post_upload env c req) w)
      = (collection w ++ [d])%list.
Proof.
  intros K%key_valid_authorized B%body_nonempty_image S
         (NE & I & ->)%save_outcome_saved.
  pose proof (post_upload_saved env c req w K B r S NE I) as R.
  eexists. unfold response_of, world_after. rewrite R.
  split; [reflexivity|]. cbn [status json fst snd collection].
  repeat split. by eexists.
Qed.

Lemma upload_success_200_witness :
  ∃ resp,
    response_of (post_upload Scenario.env Scenario.up Scenario.upload_req)
                Scenario.empty_world = Some resp
    ∧ status resp = 200
    ∧ json resp !! "url" = Some (JStr "https://cdn/x.jpg")
    ∧ json resp !! "imageId"
      = Some (JOid {| getTimestamp := 1700000000000; oid_rest := 0 |})
    ∧ json resp !! "savedAt" = Some (JDate 1700000000123).
Proof.
  destruct (upload_success_200 Scenario.env Scenario.up
              Scenario.upload_req Scenario.empty_world Scenario.result _
              scenario_upload_req_key_valid scenario_upload_req_body
              eq_refl eq_refl)
    as (resp & R & St & _ & U & _ & _ & _ & _ & I & (t & C & T) & _).
  injection C as <-.
  exists resp. auto.
Defined.

(** ** The listing query *)

Lemma date_le_trans : Transitive date_le.
Proof. intros [x|] [y|] [z|]; simpl; (lia || tauto). Qed.

Lemma date_le_total : Total date_le.
Proof. intros [x|] [y|]; simpl; (lia || tauto). Qed.

Lemma newer_first_trans : Transitive newer_first.
Proof.
  intros a b d H1 H2. unfold newer_first in *.
  exact (date_le_trans _ _ _ H2 H1).
Qed.

Lemma newer_first_total : Total newer_first.
Proof. intros a b. unfold newer_first. apply date_le_total. Qed.

Lemma sort_createdAt_desc_sorted l :
  StronglySorted newer_first (sort_createdAt_desc l).
Proof.
  apply (@StronglySorted_merge_sort _ newer_first _
           newer_first_trans newer_first_total).
Qed.

Lemma sort_createdAt_desc_elem d l : d ∈ sort_createdAt_desc l ↔ d ∈ l.
Proof. unfold sort_createdAt_desc. by rewrite merge_sort_Permutation. Qed.

Lemma StronglySorted_prefix {A} (R : relation A) (l k : list A) :
  l `prefix_of` k → StronglySorted R k → StronglySorted R l.
Proof. intros [t ->]. apply StronglySorted_app_1_l. Qed.

Lemma cursor_limit_prefix {A} n (l : list A) : cursor_limit n l `prefix_of` l.
Proof. unfold cursor_limit. destruct (n =? 0)%Z; [done | apply prefix_take]. Qed.

Lemma cursor_limit_length {A} n (l : list A) :
  n ≠ 0%Z → (List.length (cursor_limit n l) ≤ Z.to_nat (Z.abs n))%nat.
Proof.
  intros NZ. unfold cursor_limit.
  destruct (Z.eqb_spec n 0); [contradiction|].
  rewrite length_take. lia.
Qed.

(** The fields of a projected record. *)
Lemma select_lookup_Some fields (o : gmap string jsval) k v :
  select fields o !! k = Some v ↔ o !! k = Some v ∧ k ∈ "_id" :: fields.
Proof. unfold select. apply map_lookup_filter_Some. Qed.

Lemma select_lookup_keep fields (o : gmap string jsval) k :
  k ∈ "_id" :: fields → select fields o !! k = o !! k.
Proof.
  intros K. destruct (o !! k) as [v|] eqn:E.
  - by apply select_lookup_Some.
  - destruct (select fields o !! k) as [v|] eqn:E'; [|done].
    apply select_lookup_Some in E' as [E' _]. congruence.
Qed.

Lemma select_lookup_drop fields (o : gmap string jsval) k :
  k ∉ "_id" :: fields → select fields o !! k = None.
Proof.
  intros K. destruct (select fields o !! k) as [v|] eqn:E; [|done].
  apply select_lookup_Some in E as [_ E]. contradiction.
Qed.

Lemma lookup_set_opt_ne k k' v (o : gmap string jsval) :
  k ≠ k' → set_opt k v o !! k' = o !! k'.
Proof. intros NE. destruct v; simpl; [by apply lookup_insert_ne | done]. Qed.

Lemma lookup_set_opt_eq k v (o : gmap string jsval) :
  o !! k = None → set_opt k v o !! k = v.
Proof. intros E. destruct v; simpl; [by apply lookup_insert_eq | done]. Qed.

Lemma lean_deviceId d : lean d !! "deviceId" = Some (JStr (deviceId d)).
Proof. unfold lean. by rewrite !lookup_set_opt_ne. Qed.

Lemma lean_id d : lean d !! "_id" = Some (JOid (_id d)).
Proof. unfold lean. by rewrite !lookup_set_opt_ne. Qed.

Lemma lean_createdAt d : lean d !! "createdAt" = JDate <$> createdAt d.
Proof.
  unfold lean. rewrite !(lookup_set_opt_ne _ "createdAt") by done.
  rewrite lookup_set_opt_eq; [done|].
  by rewrite lookup_set_opt_ne.
Qed.

Lemma created_of_select_lean d :
  created_of (select images_projection (lean d)) = createdAt d.
Proof.
  unfold created_of. rewrite select_lookup_keep.
  - rewrite lean_createdAt. by destruct (createdAt d).
  - key_dec.
Qed.

(** A successful query returns the projection of a prefix of the matching
    documents, newest first; a non-zero numeric limit bounds its length. *)
Lemma Image_find_inv c device limit fields w docs w' :
  Image_find c device limit fields w = (inr docs, w') →
  ∃ l, docs = (select fields ∘ lean) <$> l
     ∧ l `prefix_of` sort_createdAt_desc
                       match device with
                       | Some x => filter (λ d, deviceId d = x) (collection w)
                       | None => collection w
                       end
     ∧ ∀ n, limit = Num n → n ≠ 0%Z →
            (List.length l ≤ Z.to_nat (Z.abs n))%nat.
Proof.
  unfold Image_find. msimpl.
  destruct (find_error c device limit); msimpl; [discriminate|].
  destruct limit as [|n]; msimpl.
  - destruct (limit_NaN_error c); msimpl; [discriminate|].
    intros [= <- <-]. eexists. split; [reflexivity|]. split; [reflexivity|].
    discriminate.
  - intros [= <- <-]. eexists. split; [reflexivity|].
    split; [apply cursor_limit_prefix|].
    intros ? [= <-]. apply cursor_limit_length.
Qed.

(** A failing query fails with an exception that can be caught. *)
Lemma Image_find_thrown c device limit fields w f w' :
  Image_find c device limit fields w = (inl f, w') → ∃ e, f = Thrown e.
Proof.
  unfold Image_find. msimpl.
  destruct (find_error c device limit) as [e|]; msimpl.
  - intros [= <- _]. by exists e.
  - destruct limit as [|n]; msimpl; [|discriminate].
    destruct (limit_NaN_error c) as [e|]; msimpl; [|discriminate].
    intros [= <- _]. by exists e.
Qed.

(** [GET /images] always answers; its records, if any, are those of the
    query it made. *)
Lemma get_images_inv c req w :
  ∃ r, response_of (get_images c req) w = Some r
     ∧ (images_of r = []
        ∨ ∃ w', Image_find c
                  (if truthy (query req !! "deviceId")
                   then query req !! "deviceId" else None)
                  (effective_limit (query req !! "limit"))
                  images_projection w
                = (inr (images_of r), w')).
Proof.
  unfold response_of, run, get_images, try_catch.
  change (mbind ?f ?m) with (M_bind _ _ f m). unfold M_bind at 1.
  destruct (Image_find c _ _ images_projection w) as [[f|docs] w'] eqn:F.
  - destruct (Image_find_thrown _ _ _ _ _ _ _ F) as [e ->].
    msimpl. eexists. split; [reflexivity|]. by left.
  - msimpl. eexists. split; [reflexivity|]. right. by exists w'.
Qed.

Lemma get_images_records c req w r o :
  response_of (get_images c req) w = Some r →
  o ∈ images_of r →
  ∃ d, o = select images_projection (lean d)
     ∧ d ∈ collection w
     ∧ ∀ x, query req !! "deviceId" = Some x → x ≠ "" → deviceId d = x.
Proof.
  intros R O. destruct (get_images_inv c req w) as (r' & R' & H).
  rewrite R in R'. injection R' as <-.
  destruct H as [E | (w' & F)]; [rewrite E in O; by apply not_elem_of_nil in O|].
  apply Image_find_inv in F as (l & E & P & _).
  rewrite E in O. apply list_elem_of_fmap in O as (d & -> & D).
  exists d. split; [done|].
  eapply elem_of_prefix in D; [|exact P].
  apply (proj1 (sort_createdAt_desc_elem _ _)) in D.
  split.
  - destruct (truthy (query req !! "deviceId")); [|exact D].
    destruct (query req !! "deviceId"); [|exact D].
    by apply list_elem_of_filter in D as [_ D].
  - intros x Q NE. rewrite Q in D. simpl in D.
    destruct (String.eqb_spec x ""); [contradiction|]. simpl in D.
    by apply list_elem_of_filter in D as [D _].
Qed.

(** ** The limit of [GET /images] *)

Example parseInt_examples :
  parseInt "42" = Num 42 ∧ parseInt "  -7px" = Num (-7)
  ∧ parseInt "12.9" = Num 12 ∧ parseInt "+100" = Num 100
  ∧ parseInt "abc" = NaN ∧ parseInt "" = NaN ∧ parseInt "-" = NaN.
Proof. repeat split. Qed.

(** A missing or empty [limit] gives the default. *)
Lemma effective_limit_default :
  effective_limit None = Num 20 ∧ effective_limit (Some "") = Num 20.
Proof. split; reflexivity. Qed.

(** A [limit] that reads as a number above 100 is clamped. *)
Lemma effective_limit_clamped s n :
  s ≠ "" → parseInt s = Num n → (100 < n)%Z →
  effective_limit (Some s) = Num 100.
Proof.
  intros NE P L. unfold effective_limit. simpl.
  destruct (String.eqb_spec s ""); [contradiction|].
  rewrite P. simpl. f_equal. lia.
Qed.

(** A [limit] that reads as a number up to 100 is kept as it is, zero and
    negative numbers included. *)
Lemma effective_limit_kept s n :
  s ≠ "" → parseInt s = Num n → (n <= 100)%Z →
  effective_limit (Some s) = Num n.
Proof.
  intros NE P L. unfold effective_limit. simpl.
  destruct (String.eqb_spec s ""); [contradiction|].
  rewrite P. simpl. f_equal. lia.
Qed.

(** Whatever the request, a numeric limit is at most 100. *)
Lemma effective_limit_le_100 v n : effective_limit v = Num n → (n <= 100)%Z.
Proof.
  unfold effective_limit.
  destruct (parseInt (js_or_lit v "20")); simpl; [discriminate|].
  intros [= <-]. lia.
Qed.

(** A non-empty [limit] that does not start with a number is not replaced
    by the default: the limit is [NaN]. *)
Lemma effective_limit_NaN s :
  s ≠ "" → parseInt s = NaN → effective_limit (Some s) = NaN.
Proof.
  intros NE P. unfold effective_limit. simpl.
  destruct (String.eqb_spec s ""); [contradiction|].
  by rewrite P.
Qed.

(** The first thing [GET /images] does is the query, with the limit it
    computed. *)
Lemma get_images_first_event c req w :
  head (new_events (get_images c req) w)
  = Some (ImageFind (if truthy (query req !! "deviceId")
                     then query req !! "deviceId" else None)
                    (effective_limit (query req !! "limit"))).
Proof.
  set (device := if truthy (query req !! "deviceId")
                 then query req !! "deviceId" else None).
  set (limit := effective_limit (query req !! "limit")).
  assert (∃ evs, trace (world_after (get_images c req) w)
                 = (trace w ++ ImageFind device limit :: evs)%list) as [evs E].
  { unfold world_after, run, get_images, Image_find.
    fold device limit. clearbody device limit. msimpl.
    destruct (find_error c device limit); msimpl.
    - eexists. rewrite <- app_assoc. reflexivity.
    - destruct limit; msimpl; [|by eexists].
      destruct (limit_NaN_error c); msimpl.
      + eexists. rewrite <- app_assoc. reflexivity.
      + by eexists. }
  by rewrite (new_events_app _ _ _ E).
Qed.

(** C5, at the request [GET /images?limit=abc]: the effective limit is
    [NaN], not the default 20, and [NaN] is the limit the query is made
    with, whatever the collaborators and the state. *)
Theorem limit_non_numeric_is_NaN :
  effective_limit (Some "abc") = NaN
  ∧ effective_limit (Some "abc") ≠ Num 20
  ∧ ∀ c w,
      head (new_events (get_images c (Scenario.listing {[ "limit" := "abc" ]})) w)
      = Some (ImageFind None NaN).
Proof.
  split; [reflexivity|]. split; [discriminate|].
  intros c w. by rewrite get_images_first_event.
Qed.

(** ** Properties of [GET /images] *)

(** C7: for a request with [limit=5] the handler answers, the [images]
    array has at most 5 records, and their [createdAt] values never
    increase along the array. *)
Theorem images_limit_5_sorted c req w :
  query req !! "limit" = Some "5" →
  ∃ r, response_of (get_images c req) w = Some r
     ∧ (List.length (images_of r) ≤ 5)%nat
     ∧ StronglySorted (λ a b, date_le (created_of b) (created_of a))
                      (images_of r).
Proof.
  intros L. destruct (get_images_inv c req w) as (r & R & H).
  exists r. split; [exact R|].
  destruct H as [E | (w' & F)].
  - rewrite E. split; [simpl; lia | constructor].
  - apply Image_find_inv in F as (l & E & P & B).
    rewrite E, length_fmap. split.
    + apply (B 5%Z); [by rewrite L | done].
    + apply StronglySorted_fmap with (R1 := newer_first).
      * intros a b. unfold compose. by rewrite !created_of_select_lean.
      * eapply StronglySorted_prefix; [exact P|].
        apply sort_createdAt_desc_sorted.
Qed.

Lemma images_limit_5_sorted_witness :
  ∃ r, response_of (get_images Scenario.up (Scenario.listing {[ "limit" := "5" ]}))
                   Scenario.one_image = Some r
     ∧ (List.length (images_of r) ≤ 5)%nat.
Proof.
  assert (L : query (Scenario.listing {[ "limit" := "5" ]}) !! "limit"
              = Some "5") by reflexivity.
  destruct (images_limit_5_sorted Scenario.up
              (Scenario.listing {[ "limit" := "5" ]}) Scenario.one_image L)
    as (r & R & B & _).
  exists r. auto.
Defined.

(** An empty [deviceId] parameter is as good as none. *)
Lemma get_images_empty_deviceId c req w :
  query req !! "deviceId" = Some "" →
  get_images c (without_deviceId req) w = get_images c req w.
Proof.
  intros Q. unfold get_images, without_deviceId. cbn [query].
  rewrite lookup_delete_eq, lookup_delete_ne by done.
  by rewrite Q.
Qed.

(** C8, amended: for a request whose [deviceId] parameter is a string
    [X]: when [X] is not empty, every record of the [images] array has
    [deviceId] equal to [X]; when [X] is empty, no filter is applied: the
    answer is that of the same request without the parameter, and its
    records are taken from the front of the whole collection sorted
    newest first. *)
Theorem images_deviceId_filter c req w r X :
  query req !! "deviceId" = Some X →
  response_of (get_images c req) w = Some r →
  (X ≠ "" → ∀ o, o ∈ images_of r → o !! "deviceId" = Some (JStr X))
  ∧ (X = "" →
     response_of (get_images c (without_deviceId req)) w = Some r
     ∧ ∃ l rest,
         images_of r = listed <$> l
         ∧ sort_createdAt_desc (collection w) = (l ++ rest)%list).
Proof.
  intros Q R. split.
  - intros NE o O.
    destruct (get_images_records c req w r o R O) as (d & -> & _ & D).
    rewrite select_lookup_keep by key_dec.
    rewrite lean_deviceId. by rewrite (D X Q NE).
  - intros ->. split.
    + unfold response_of, run. rewrite get_images_empty_deviceId by done.
      exact R.
    + destruct (get_images_inv c req w) as (r' & R' & H).
      rewrite R in R'. injection R' as <-.
      destruct H as [E | (w' & F)].
      * exists [], (sort_createdAt_desc (collection w)). by rewrite E.
      * rewrite Q in F. cbn [truthy String.eqb negb] in F.
        apply Image_find_inv in F as (l & E & [rest P] & _).
        exists l, rest. by split.
Qed.

(** C6, amended: every record of the [images] array has the field [_id],
    has no field outside [_id], [url], [deviceId], [createdAt],
    [public_id], [width], [height] and [bytes], and so has neither
    [updatedAt] nor [__v]. *)
Theorem images_record_fields c req w r o :
  response_of (get_images c req) w = Some r →
  o ∈ images_of r →
  is_Some (o !! "_id")
  ∧ (∀ k, is_Some (o !! k) →
          k ∈ ["_id"; "url"; "deviceId"; "createdAt"; "public_id";
               "width"; "height"; "bytes"])
  ∧ o !! "updatedAt" = None
  ∧ o !! "__v" = None.
Proof.
  intros R O.
  destruct (get_images_records c req w r o R O) as (d & -> & _).
  split; [|split; [|split]].
  - rewrite select_lookup_keep by key_dec. rewrite lean_id. by eexists.
  - intros k [v K]. by apply select_lookup_Some in K as [_ K].
  - apply select_lookup_drop. key_dec.
  - apply select_lookup_drop. key_dec.
Qed.

Lemma scenario_one_image : collection Scenario.one_image = [scenario_doc].
Proof. vm_compute. reflexivity. Qed.

Lemma scenario_list_all :
  response_of (get_images Scenario.up (Scenario.listing ∅)) Scenario.one_image
  = Some scenario_listing.
Proof. vm_compute. reflexivity. Qed.

Lemma scenario_list_empty_deviceId :
  response_of (get_images Scenario.up (Scenario.listing {[ "deviceId" := "" ]}))
              Scenario.one_image
  = Some scenario_listing.
Proof. vm_compute. reflexivity. Qed.

Lemma scenario_list_device :
  response_of (get_images Scenario.up
                 (Scenario.listing {[ "deviceId" := "esp32-1" ]}))
              Scenario.one_image
  = Some scenario_listing.
Proof. vm_compute. reflexivity. Qed.

Lemma scenario_record_listed : scenario_record ∈ images_of scenario_listing.
Proof. vm_compute. left. Qed.

(** C8 as stated fails for an empty [deviceId]: [GET /images?deviceId=]
    applies no filter and returns the record of device [esp32-1]. *)
Lemma images_empty_deviceId_counterexample :
  let req := Scenario.listing {[ "deviceId" := "" ]} in
  query req !! "deviceId" = Some ""
  ∧ ∃ r o,
      response_of (get_images Scenario.up req) Scenario.one_image = Some r
      ∧ o ∈ images_of r
      ∧ o !! "deviceId" = Some (JStr "esp32-1")
      ∧ o !! "deviceId" ≠ Some (JStr "").
Proof.
  split; [reflexivity|].
  exists scenario_listing, scenario_record.
  split; [exact scenario_list_empty_deviceId|].
  split; [exact scenario_record_listed|].
  assert (E : scenario_record !! "deviceId" = Some (JStr "esp32-1"))
    by (vm_compute; reflexivity).
  split; [exact E|]. rewrite E. discriminate.
Qed.

Lemma images_deviceId_filter_witness :
  scenario_record !! "deviceId" = Some (JStr "esp32-1").
Proof.
  assert (Q : query (Scenario.listing {[ "deviceId" := "esp32-1" ]})
              !! "deviceId" = Some "esp32-1") by reflexivity.
  assert (NE : "esp32-1" ≠ "") by discriminate.
  exact (proj1 (images_deviceId_filter Scenario.up
                  (Scenario.listing {[ "deviceId" := "esp32-1" ]})
                  Scenario.one_image scenario_listing "esp32-1"
                  Q scenario_list_device)
               NE scenario_record scenario_record_listed).
Defined.

(** C6 as stated fails: the record returned for the scenario's image has
    the field [_id], which is none of the seven projected fields (under
    the name [public_id] of the code or [publicId] of the data model). *)
Lemma images_record_id_counterexample :
  ∃ r o,
    response_of (get_images Scenario.up (Scenario.listing ∅)) Scenario.one_image
    = Some r
    ∧ o ∈ images_of r
    ∧ o !! "_id" = Some (JOid {| getTimestamp := 1700000000000; oid_rest := 0 |})
    ∧ "_id" ∉ ["url"; "deviceId"; "createdAt"; "public_id"; "publicId";
               "width"; "height"; "bytes"].
Proof.
  exists scenario_listing, scenario_record.
  split; [exact scenario_list_all|].
  split; [exact scenario_record_listed|].
  split; [vm_compute; reflexivity | key_dec].
Qed.

Lemma images_record_fields_witness :
  is_Some (scenario_record !! "_id")
  ∧ scenario_record !! "updatedAt" = None
  ∧ scenario_record !! "__v" = None.
Proof.
  destruct (images_record_fields Scenario.up (Scenario.listing ∅)
              Scenario.one_image scenario_listing scenario_record
              scenario_list_all scenario_record_listed)
    as (I & _ & U & V).
  auto.
Defined.

(** * Further properties *)

(** ** The ways through [POST /upload] *)

Lemma body_buffer_dec (b : Body) :
  (∃ data, b = BBuffer data) ∨ (∀ data, b ≠ BBuffer data).
Proof. destruct b as [|data|len]; [by right | left; by exists data | by right]. Qed.

Lemma upload_stream_other c folder buffer :
  (∀ data, buffer ≠ BBuffer data) → upload_stream c folder buffer = inl write_error.
Proof. intros B. destruct buffer as [|data|len]; [done | by destruct (B data) | done]. Qed.

(** Every run of the handler of [app.js] is one of: rejected key, rejected
    body, a body that cannot be streamed, storage failure, storage success
    with a failed [save()], storage success with a successful [save()]. *)
Lemma post_upload_cases env c req w :
  (unauthorized env (supplied_key req) = true
   ∧ run (post_upload env c req) w
     = answer w 401 "Unauthorized: invalid api key")
  ∨ (unauthorized env (supplied_key req) = false
     ∧ no_image (body req) = true
     ∧ run (post_upload env c req) w = answer w 400 "No image uploaded")
  ∨ (unauthorized env (supplied_key req) = false
     ∧ no_image (body req) = false
     ∧ (∀ data, body req ≠ BBuffer data)
     ∧ run (post_upload env c req) w
       = (None,
          {| collection := collection w;
             trace := (trace w ++ [ConsoleLog "Received";
                                   UploadStream (folder_of req) (body req)])%list |}))
  ∨ (unauthorized env (supplied_key req) = false
     ∧ no_image (body req) = false
     ∧ ∃ data err,
         body req = BBuffer data
         ∧ upload_stream c (folder_of req) (body req) = inl err
         ∧ run (post_upload env c req) w
           = (Some {| status := 500; json := {[ "error" := JStr err ]} |},
              {| collection := collection w;
                 trace := (trace w ++ [ConsoleLog "Received";
                                       UploadStream (folder_of req) (body req);
                                       ConsoleError "Upload error:"])%list |}))
  ∨ (unauthorized env (supplied_key req) = false
     ∧ no_image (body req) = false
     ∧ ∃ r,
         upload_stream c (folder_of req) (body req) = inr r
         ∧ (Cloudinary.secure_url r = ""
            ∨ is_Some (insert_error c (stored_doc c w req r) (collection w)))
         ∧ run (post_upload env c req) w
           = (Some {| status := 200; json := upload_json r |},
              {| collection := collection w;
                 trace := (trace w
                           ++ [ConsoleLog "Received";
                               UploadStream (folder_of req) (body req);
                               ImageSave (built_doc c w req r);
                               ConsoleWarn "Failed to save image metadata to MongoDB:"]
                           ++ notify_events env c (device_of req) r)%list |}))
  ∨ (unauthorized env (supplied_key req) = false
     ∧ no_image (body req) = false
     ∧ ∃ r,
         upload_stream c (folder_of req) (body req) = inr r
         ∧ Cloudinary.secure_url r ≠ ""
         ∧ insert_error c (stored_doc c w req r) (collection w) = None
         ∧ run (post_upload env c req) w
           = (Some {| status := 200;
                      json := <["savedAt" := JDate (Date_now c)]>
                                (<["imageId" := JOid (_id (stored_doc c w req r))]>
                                   (upload_json r)) |},
              {| collection := (collection w ++ [stored_doc c w req r])%list;
                 trace := (trace w
                           ++ [ConsoleLog "Received";
                               UploadStream (folder_of req) (body req);
                               ImageSave (built_doc c w req r);
                               ConsoleLog "Saved image metadata to MongoDB, id="]
                           ++ notify_events env c (device_of req) r)%list |})).
Proof.
  destruct (unauthorized env (supplied_key req)) eqn:U.
  { left. split; [done|]. by apply post_upload_401. }
  destruct (no_image (body req)) eqn:N.
  { right; left. repeat split. by apply post_upload_400. }
  destruct (body_buffer_dec (body req)) as [[data B] | B].
  2:{ right; right; left. repeat split; [done|]. by apply post_upload_crash. }
  destruct (upload_stream c (folder_of req) (body req)) as [err|r] eqn:S.
  { right; right; right; left. repeat split. exists data, err.
    split; [done|]. split; [done|].
    exact (post_upload_storage_error env c req w U N data err B S). }
  destruct (String.eqb_spec (Cloudinary.secure_url r) "") as [E|NE].
  { right; right; right; right; left. repeat split. exists r.
    split; [done|]. split; [by left|].
    apply post_upload_save_error; auto. }
  destruct (insert_error c (stored_doc c w req r) (collection w)) as [e|] eqn:I.
  { right; right; right; right; left. repeat split. exists r.
    split; [done|]. split; [right; rewrite I; by eexists|].
    apply post_upload_save_error; [done..|]. right. rewrite I. by eexists. }
  right; right; right; right; right. repeat split. exists r.
  split; [done|]. split; [done|]. split; [done|].
  by apply post_upload_saved.
Qed.

(** The runs of the handler of [part_000]. *)
Lemma post_upload_part_000_cases env c req w :
  (unauthorized env (supplied_key req) = true
   ∧ run (post_upload_part_000 env c req) w
     = answer w 401 "Unauthorized: invalid api key")
  ∨ (unauthorized env (supplied_key req) = false
     ∧ no_image (body req) = true
     ∧ run (post_upload_part_000 env c req) w
       = answer w 400 "No image uploaded")
  ∨ (unauthorized env (supplied_key req) = false
     ∧ no_image (body req) = false
     ∧ (∀ data, body req ≠ BBuffer data)
     ∧ run (post_upload_part_000 env c req) w
       = (None,
          {| collection := collection w;
             trace := (trace w ++ [ConsoleLog "Received";
                                   UploadStream (folder_of req) (body req)])%list |}))
  ∨ (unauthorized env (supplied_key req) = false
     ∧ no_image (body req) = false
     ∧ ∃ data err,
         body req = BBuffer data
         ∧ upload_stream c (folder_of req) (body req) = inl err
         ∧ run (post_upload_part_000 env c req) w
           = (Some {| status := 500; json := {[ "error" := JStr err ]} |},
              {| collection := collection w;
                 trace := (trace w ++ [ConsoleLog "Received";
                                       UploadStream (folder_of req) (body req);
                                       ConsoleError "Upload error:"])%list |}))
  ∨ (unauthorized env (supplied_key req) = false
     ∧ no_image (body req) = false
     ∧ ∃ r,
         upload_stream c (folder_of req) (body req) = inr r
         ∧ run (post_upload_part_000 env c req) w
           = (Some {| status := 200; json := upload_json r |},
              {| collection := collection w;
                 trace := (trace w
                           ++ [ConsoleLog "Received";
                               UploadStream (folder_of req) (body req)]
                           ++ notify_events env c (device_of req) r)%list |})).
Proof.
  destruct (unauthorized env (supplied_key req)) eqn:U.
  { left. split; [done|]. by apply post_upload_part_000_401. }
  destruct (no_image (body req)) eqn:N.
  { right; left. repeat split. by apply post_upload_part_000_400. }
  destruct (body_buffer_dec (body req)) as [[data B] | B].
  2:{ right; right; left. repeat split; [done|].
      by apply post_upload_part_000_crash. }
  destruct (upload_stream c (folder_of req) (body req)) as [err|r] eqn:S.
  { right; right; right; left. repeat split. exists data, err.
    split; [done|]. split; [done|].
    exact (post_upload_part_000_storage_error env c req w U N data err B S). }
  right; right; right; right. repeat split. exists r. split; [done|].
  by apply post_upload_part_000_stored.
Qed.

Lemma unauthorized_true_iff env req :
  unauthorized env (supplied_key req) = true ↔ ¬ key_valid env req.
Proof.
  rewrite <- unauthorized_false_iff.
  destruct (unauthorized env (supplied_key req)); split; congruence.
Qed.

Lemma no_image_false_iff req : no_image (body req) = false ↔ ¬ body_rejected req.
Proof.
  unfold body_rejected. rewrite <- no_image_spec.
  destruct (no_image (body req)); split; congruence.
Qed.

(** ** Status codes of [POST /upload] *)

Lemma body_unstreamable_iff req :
  body_unstreamable req
  ↔ no_image (body req) = false ∧ ∀ data, body req ≠ BBuffer data.
Proof.
  unfold body_unstreamable. destruct (body req) as [|data|len]; simpl.
  - split; [intros (len & [=] & _) | intros [[=] _]].
  - split; [intros (len & [=] & _) | intros [_ B]; by destruct (B data)].
  - rewrite bool_decide_eq_false. split.
    + intros (len' & [= <-] & NE). by split.
    + intros [NE _]. by exists len.
Qed.

(** Both upload handlers send no response exactly when the key is valid
    and the body has passed the check without being a [Buffer] (an object
    left by another body parser): the write to the upload stream then
    throws where nothing catches it.  Otherwise they answer, and the
    status is decided by the key, the body and the storage call alone:
    401 exactly for an invalid key; 400 exactly for a valid key with a
    rejected body; 500 exactly when the storage call fails; 200 exactly
    when it succeeds.  A failure of [save()] or of the notification never
    changes the status. *)
Theorem upload_status_table env c req w h :
  h = post_upload env c req ∨ h = post_upload_part_000 env c req →
  (response_of h w = None ↔ key_valid env req ∧ body_unstreamable req)
  ∧ ∀ resp,
      response_of h w = Some resp →
      (status resp = 401 ↔ ¬ key_valid env req)
      ∧ (status resp = 400 ↔ key_valid env req ∧ body_rejected req)
      ∧ (status resp = 500 ↔
           key_valid env req ∧ ¬ body_rejected req
           ∧ ∃ err, upload_stream c (folder_of req) (body req) = inl err)
      ∧ (status resp = 200 ↔
           key_valid env req ∧ ¬ body_rejected req
           ∧ ∃ r, upload_stream c (folder_of req) (body req) = inr r).
Proof.
  pose proof (unauthorized_true_iff env req) as KT.
  pose proof (unauthorized_false_iff env req) as KF.
  pose proof (no_image_spec (body req)) as BT. fold (body_rejected req) in BT.
  pose proof (no_image_false_iff req) as BF.
  pose proof (body_unstreamable_iff req) as US.
  pose proof (upload_stream_other c (folder_of req) (body req)) as SO.
  assert (T : ∀ o : option Response,
    (unauthorized env (supplied_key req) = true
     ∧ ∃ r0, o = Some r0 ∧ status r0 = 401)
    ∨ (unauthorized env (supplied_key req) = false
       ∧ no_image (body req) = true
       ∧ ∃ r0, o = Some r0 ∧ status r0 = 400)
    ∨ (unauthorized env (supplied_key req) = false
       ∧ no_image (body req) = false
       ∧ (∀ data, body req ≠ BBuffer data)
       ∧ o = None)
    ∨ (unauthorized env (supplied_key req) = false
       ∧ no_image (body req) = false
       ∧ (∃ data, body req = BBuffer data)
       ∧ (∃ err, upload_stream c (folder_of req) (body req) = inl err)
       ∧ ∃ r0, o = Some r0 ∧ status r0 = 500)
    ∨ (unauthorized env (supplied_key req) = false
       ∧ no_image (body req) = false
       ∧ (∃ r, upload_stream c (folder_of req) (body req) = inr r)
       ∧ ∃ r0, o = Some r0 ∧ status r0 = 200) →
    (o = None ↔ key_valid env req ∧ body_unstreamable req)
    ∧ ∀ resp,
        o = Some resp →
        (status resp = 401 ↔ ¬ key_valid env req)
        ∧ (status resp = 400 ↔ key_valid env req ∧ body_rejected req)
        ∧ (status resp = 500 ↔
             key_valid env req ∧ ¬ body_rejected req
             ∧ ∃ err, upload_stream c (folder_of req) (body req) = inl err)
        ∧ (status resp = 200 ↔
             key_valid env req ∧ ¬ body_rejected req
             ∧ ∃ r, upload_stream c (folder_of req) (body req) = inr r)).
  { intros o [(U & r0 & -> & St) | [(U & N & r0 & -> & St)
              | [(U & N & B & ->) | [(U & N & (data & B) & (err & S) & r0 & -> & St)
              | (U & N & (r & S) & r0 & -> & St)]]]].
    - split; [split; [discriminate | intros [K _]; apply KF in K; congruence]|].
      intros resp [= <-]. rewrite St.
      repeat split; intros; try discriminate; try (by apply KT);
        repeat match goal with H : _ ∧ _ |- _ => destruct H end;
        exfalso; apply KF in H; congruence.
    - split; [split; [discriminate|]|].
      { intros [_ Un]. apply US in Un as [Un _]. congruence. }
      intros resp [= <-]. rewrite St. apply KF in U. apply BT in N.
      repeat split; intros; try discriminate; try done;
        repeat match goal with H : _ ∧ _ |- _ => destruct H end;
        try contradiction.
    - split; [split; [intros _ | done]|].
      { split; [by apply KF | apply US; by split]. }
      intros resp [=].
    - split; [split; [discriminate|]|].
      { intros [_ Un]. apply US in Un as [_ Un]. by destruct (Un data). }
      intros resp [= <-]. rewrite St. apply KF in U. apply BF in N.
      repeat split; intros; try discriminate; try done; try (by exists err);
        repeat match goal with
               | H : _ ∧ _ |- _ => destruct H
               | H : ∃ _, _ |- _ => destruct H
               end;
        try contradiction; congruence.
    - split; [split; [discriminate|]|].
      { intros [_ Un]. apply US in Un as [_ Un]. apply SO in Un. congruence. }
      intros resp [= <-]. rewrite St. apply KF in U. apply BF in N.
      repeat split; intros; try discriminate; try done; try (by exists r);
        repeat match goal with
               | H : _ ∧ _ |- _ => destruct H
               | H : ∃ _, _ |- _ => destruct H
               end;
        try contradiction; congruence. }
  intros [-> | ->].
  - destruct (post_upload_cases env c req w)
      as [(U & R) | [(U & N & R) | [(U & N & B & R) | [(U & N & data & err & B & S & R)
          | [(U & N & r & S & F & R) | (U & N & r & S & NE & I & R)]]]]];
      apply T; unfold response_of; rewrite R; cbn [fst].
    + left. split; [done|]. by eexists.
    + right; left. split; [done|]. split; [done|]. by eexists.
    + right; right; left. by repeat split.
    + right; right; right; left. repeat split; [done..| by exists data
                                                | by exists err |]. by eexists.
    + right; right; right; right. repeat split; [done..| by exists r |]. by eexists.
    + right; right; right; right. repeat split; [done..| by exists r |]. by eexists.
  - destruct (post_upload_part_000_cases env c req w)
      as [(U & R) | [(U & N & R) | [(U & N & B & R) | [(U & N & data & err & B & S & R)
          | (U & N & r & S & R)]]]];
      apply T; unfold response_of; rewrite R; cbn [fst].
    + left. split; [done|]. by eexists.
    + right; left. split; [done|]. split; [done|]. by eexists.
    + right; right; left. by repeat split.
    + right; right; right; left. repeat split; [done..| by exists data
                                                | by exists err |]. by eexists.
    + right; right; right; right. repeat split; [done..| by exists r |]. by eexists.
Qed.

Lemma upload_status_table_witness :
  key_valid Scenario.env Scenario.upload_req
  ∧ ¬ body_rejected Scenario.upload_req
  ∧ ∃ r, upload_stream Scenario.up (folder_of Scenario.upload_req)
                       (body Scenario.upload_req) = inr r.
Proof.
  destruct (upload_status_table Scenario.env Scenario.up Scenario.upload_req
              Scenario.empty_world _ (or_introl eq_refl))
    as (_ & T).
  destruct (response_of (post_upload Scenario.env Scenario.up Scenario.upload_req)
                        Scenario.empty_world) as [resp|] eqn:R;
    [|vm_compute in R; discriminate].
  destruct (T resp eq_refl) as (_ & _ & _ & T200).
  apply T200. vm_compute in R. injection R as <-. reflexivity.
Defined.

Example upload_parsed_body_no_response :
  response_of (post_upload Scenario.env Scenario.up scenario_parsed_req)
              Scenario.empty_world = None
  ∧ new_events (post_upload Scenario.env Scenario.up scenario_parsed_req)
               Scenario.empty_world
    = [ConsoleLog "Received"; UploadStream "esp32/unknown_device" (BObject None)].
Proof. split; vm_compute; reflexivity. Qed.

(** ** What an upload does to the store *)

Lemma js_or_lit_nonempty a b : b ≠ "" → js_or_lit a b ≠ "".
Proof.
  intros NE. unfold js_or_lit. destruct a as [s|]; [|done].
  by destruct (String.eqb_spec s "").
Qed.

Lemma device_of_nonempty req : device_of req ≠ "".
Proof. by apply js_or_lit_nonempty. Qed.

(** An upload never changes or removes a stored record and adds at most
    one.  A record is added only for a valid key and a successful storage
    call; it then carries the device of the request (never empty), the
    storage result's URL (never empty) and metadata, both timestamps set
    to the time of the save, and its identifier is the [imageId] of the
    200 answer. *)
Theorem upload_store_append_only env c req w :
  collection (world_after (post_upload env c req) w) = collection w
  ∨ ∃ r d resp,
      key_valid env req
      ∧ upload_stream c (folder_of req) (body req) = inr r
      ∧ collection (world_after (post_upload env c req) w)
        = (collection w ++ [d])%list
      ∧ response_of (post_upload env c req) w = Some resp
      ∧ status resp = 200
      ∧ json resp !! "imageId" = Some (JOid (_id d))
      ∧ deviceId d = device_of req ∧ deviceId d ≠ ""
      ∧ url d = Cloudinary.secure_url r ∧ url d ≠ ""
      ∧ public_id d = Some (Cloudinary.public_id r)
      ∧ width d = Some (Cloudinary.width r)
      ∧ height d = Some (Cloudinary.height r)
      ∧ bytes d = Some (Cloudinary.bytes r)
      ∧ createdAt d = Some (Date_now c)
      ∧ updatedAt d = Some (Date_now c).
Proof.
  destruct (post_upload_cases env c req w)
    as [(U & R) | [(U & N & R) | [(U & N & B & R) | [(U & N & data & err & B & S & R)
        | [(U & N & r & S & F & R) | (U & N & r & S & NE & I & R)]]]]];
    try (left; unfold world_after; rewrite R; reflexivity).
  right. exists r, (stored_doc c w req r). eexists.
  split; [by apply unauthorized_false_iff|]. split; [exact S|].
  unfold world_after, response_of. rewrite R. cbn [fst snd collection].
  split; [reflexivity|]. split; [reflexivity|].
  cbn [status json stored_doc stamped built_doc Image_new
       deviceId url public_id width height bytes createdAt updatedAt _id].
  repeat split; auto using device_of_nonempty.
Qed.

Lemma notify_events_requests env c req r :
  List.filter is_notification_call (notify_events env c (device_of req) r)
  = if telegram_configured env then [telegram_request env c req r] else [].
Proof.
  unfold notify_events, telegram_configured, telegram_request.
  destruct (truthy (env !! "TELEGRAM_BOT_TOKEN")
            && truthy (env !! "TELEGRAM_CHAT_ID")); [|reflexivity].
  cbn [List.filter is_notification_call].
  by destruct (axios_post c _ _ _ _).
Qed.

(** The handler of [part_000] has no store.  Run against the same storage
    service as the handler of [app.js] (the Telegram API and the
    formatting of the time being each handler's own), it leaves the
    collection as it is; it sends a response exactly when [app.js] does,
    and that response is the one of [app.js] without the fields [imageId]
    and [savedAt]; it makes the same storage call; and it makes its
    requests to the Telegram bot API in the same number, to the same
    endpoint and chat and with the same photo, the caption being its
    own. *)
Theorem part_000_answers_as_app env c c0 req w :
  upload_stream c0 = upload_stream c →
  response_of (post_upload_part_000 env c0 req) w
  = strip_saved <$> response_of (post_upload env c req) w
  ∧ collection (world_after (post_upload_part_000 env c0 req) w) = collection w
  ∧ List.filter is_storage_call (new_events (post_upload_part_000 env c0 req) w)
    = List.filter is_storage_call (new_events (post_upload env c req) w)
  ∧ notification_target
      <$> List.filter is_notification_call
            (new_events (post_upload_part_000 env c0 req) w)
    = notification_target
        <$> List.filter is_notification_call (new_events (post_upload env c req) w).
Proof.
  intros HU.
  assert (D1 : ∀ v : jsval,
            delete "savedAt" (delete "imageId" ({[ "error" := v ]} : gmap string jsval))
            = {[ "error" := v ]}).
  { intros v. by rewrite !delete_id. }
  assert (D2 : ∀ r, delete "savedAt" (delete "imageId" (upload_json r))
                    = upload_json r).
  { intros r. by rewrite !delete_id. }
  assert (D3 : ∀ r a b,
            delete "savedAt"
              (delete "imageId"
                 (<["savedAt" := a]> (<["imageId" := b]> (upload_json r))))
            = upload_json r).
  { intros r a b. rewrite delete_insert_ne by done.
    rewrite (delete_insert_id (upload_json r) "imageId") by done.
    by rewrite delete_insert_id. }
  assert (NS : ∀ c1 r, List.filter is_storage_call
                         (notify_events env c1 (device_of req) r) = []).
  { intros c1 r. unfold notify_events.
    destruct (_ && _); [|reflexivity].
    cbn [List.filter is_storage_call]. by destruct (axios_post c1 _ _ _ _). }
  assert (NT : ∀ r, notification_target
                      <$> List.filter is_notification_call
                            (notify_events env c0 (device_of req) r)
                    = notification_target
                        <$> List.filter is_notification_call
                              (notify_events env c (device_of req) r)).
  { intros r. rewrite !notify_events_requests.
    by destruct (telegram_configured env). }
  destruct (post_upload_cases env c req w)
    as [(U & R) | [(U & N & R) | [(U & N & B & R) | [(U & N & data & err & B & S & R)
        | [(U & N & r & S & F & R) | (U & N & r & S & NE & I & R)]]]]].
  - pose proof (post_upload_part_000_401 env c0 req w U) as R0.
    unfold new_events, response_of, world_after. rewrite R, R0.
    unfold answer, strip_saved. cbn [fst snd fmap option_fmap option_map
                                     status json collection trace].
    by rewrite D1.
  - pose proof (post_upload_part_000_400 env c0 req w U N) as R0.
    unfold new_events, response_of, world_after. rewrite R, R0.
    unfold answer, strip_saved. cbn [fst snd fmap option_fmap option_map
                                     status json collection trace].
    by rewrite D1.
  - pose proof (post_upload_part_000_crash env c0 req w U N B) as R0.
    unfold new_events, response_of, world_after. by rewrite R, R0.
  - rewrite <- HU in S.
    pose proof (post_upload_part_000_storage_error env c0 req w U N data err B S)
      as R0.
    unfold new_events, response_of, world_after. rewrite R, R0.
    unfold strip_saved. cbn [fst snd fmap option_fmap option_map
                             status json collection trace].
    by rewrite D1.
  - rewrite <- HU in S.
    pose proof (post_upload_part_000_stored env c0 req w U N r S) as R0.
    unfold new_events, response_of, world_after. rewrite R, R0.
    unfold strip_saved. cbn [fst snd fmap option_fmap option_map
                             status json collection trace].
    rewrite D2, !drop_app_length, !List.filter_app, !NS, !fmap_app, NT.
    by repeat split.
  - rewrite <- HU in S.
    pose proof (post_upload_part_000_stored env c0 req w U N r S) as R0.
    unfold new_events, response_of, world_after. rewrite R, R0.
    unfold strip_saved. cbn [fst snd fmap option_fmap option_map
                             status json collection trace].
    rewrite D3, !drop_app_length, !List.filter_app, !NS, !fmap_app, NT.
    by repeat split.
Qed.

Lemma part_000_answers_as_app_witness :
  response_of (post_upload_part_000 Scenario.env scenario_telegram_down
                                    Scenario.upload_req) Scenario.empty_world
  = strip_saved
      <$> response_of (post_upload Scenario.env Scenario.up Scenario.upload_req)
                      Scenario.empty_world.
Proof.
  exact (proj1 (part_000_answers_as_app Scenario.env Scenario.up
                  scenario_telegram_down Scenario.upload_req
                  Scenario.empty_world eq_refl)).
Defined.

(** ** The notification *)


(** Once the storage call has succeeded, both handlers make exactly one
    request to the Telegram bot API when the bot token and the chat are
    both configured, and none otherwise, whether or not [save()] and the
    request itself succeed.  The request names the configured chat, the
    stored image's URL and the device. *)
Theorem upload_notifies_once env c req w r h :
  h = post_upload env c req ∨ h = post_upload_part_000 env c req →
  key_valid env req →
  ¬ body_rejected req →
  upload_stream c (folder_of req) (body req) = inr r →
  List.filter is_notification_call (new_events h w)
  = if telegram_configured env then [telegram_request env c req r] else [].
Proof.
  intros H K%unauthorized_false_iff B%no_image_false_iff S.
  destruct H as [-> | ->].
  - destruct (String.eqb_spec (Cloudinary.secure_url r) "") as [E|NE];
      [|destruct (insert_error c (stored_doc c w req r) (collection w))
          as [e|] eqn:I].
    + pose proof (post_upload_save_error env c req w K B r S (or_introl E)) as R.
      unfold new_events, world_after. rewrite R. cbn [snd trace].
      rewrite drop_app_length, List.filter_app. apply notify_events_requests.
    + assert (F : is_Some (insert_error c (stored_doc c w req r) (collection w)))
        by (rewrite I; by eexists).
      pose proof (post_upload_save_error env c req w K B r S (or_intror F)) as R.
      unfold new_events, world_after. rewrite R. cbn [snd trace].
      rewrite drop_app_length, List.filter_app. apply notify_events_requests.
    + pose proof (post_upload_saved env c req w K B r S NE I) as R.
      unfold new_events, world_after. rewrite R. cbn [snd trace].
      rewrite drop_app_length, List.filter_app. apply notify_events_requests.
  - pose proof (post_upload_part_000_stored env c req w K B r S) as R.
    unfold new_events, world_after. rewrite R. cbn [snd trace].
    rewrite drop_app_length, List.filter_app. apply notify_events_requests.
Qed.

Lemma scenario_upload_req_not_rejected : ¬ body_rejected Scenario.upload_req.
Proof. intros [H | [H | H]]; discriminate. Defined.

Lemma upload_notifies_once_witness :
  List.filter is_notification_call
    (new_events (post_upload Scenario.env scenario_telegram_down
                             Scenario.upload_req) Scenario.empty_world)
  = [AxiosPost "https://api.telegram.org/bot42:token/sendPhoto" "-1001"
               "https://cdn/x.jpg"
               "Visitor at esp32-1 — 15/11/2023, 1:00:00 am"].
Proof.
  exact (upload_notifies_once Scenario.env scenario_telegram_down
           Scenario.upload_req Scenario.empty_world Scenario.result _
           (or_introl eq_refl) scenario_upload_req_key_valid
           scenario_upload_req_not_rejected eq_refl).
Defined.

(** A request to the Telegram bot API is made only with both settings
    configured, for a valid key, an accepted body and a successful storage
    call, and it is the request for that storage result. *)
Theorem upload_notification_needs_storage env c req w h e :
  h = post_upload env c req ∨ h = post_upload_part_000 env c req →
  e ∈ new_events h w →
  is_notification_call e = true →
  telegram_configured env = true
  ∧ key_valid env req
  ∧ ¬ body_rejected req
  ∧ ∃ r, upload_stream c (folder_of req) (body req) = inr r
         ∧ e = telegram_request env c req r.
Proof.
  intros H E N.
  assert (In1 : ∀ r, e ∈ notify_events env c (device_of req) r →
                     telegram_configured env = true
                     ∧ e = telegram_request env c req r).
  { intros r Hin.
    assert (Hf : In e (List.filter is_notification_call
                         (notify_events env c (device_of req) r))).
    { apply List.filter_In. split; [by apply list_elem_of_In|done]. }
    rewrite notify_events_requests in Hf.
    destruct (telegram_configured env); [|destruct Hf].
    destruct Hf as [<- | []]. done. }
  assert (Early : ∀ st msg, run h w = answer w st msg → False).
  { intros st msg R. unfold new_events, world_after in E. rewrite R in E.
    cbn [snd answer trace] in E. rewrite drop_app_length in E.
    apply list_elem_of_singleton in E as ->. discriminate. }
  assert (Finish : ∀ r pre,
            upload_stream c (folder_of req) (body req) = inr r →
            unauthorized env (supplied_key req) = false →
            no_image (body req) = false →
            Forall (λ x, is_notification_call x = false) pre →
            e ∈ (pre ++ notify_events env c (device_of req) r)%list →
            telegram_configured env = true ∧ key_valid env req
            ∧ ¬ body_rejected req
            ∧ ∃ r, upload_stream c (folder_of req) (body req) = inr r
                   ∧ e = telegram_request env c req r).
  { intros r pre S U B P Hin.
    apply elem_of_app in Hin as [Hin | Hin].
    - rewrite Forall_forall in P. apply P in Hin. congruence.
    - destruct (In1 r Hin) as [T ->].
      split; [done|]. split; [by apply unauthorized_false_iff|].
      split; [by apply no_image_false_iff|]. by exists r. }
  destruct H as [-> | ->].
  - destruct (post_upload_cases env c req w)
      as [(U & R) | [(U & B & R) | [(U & B & NB & R)
          | [(U & B & data & err & HB & S & R)
          | [(U & B & r & S & F & R) | (U & B & r & S & NE & I & R)]]]]].
    + destruct (Early _ _ R).
    + destruct (Early _ _ R).
    + unfold new_events, world_after in E. rewrite R in E.
      cbn [snd trace] in E. rewrite drop_app_length in E.
      repeat (apply elem_of_cons in E as [-> | E]; [discriminate|]).
      by apply elem_of_nil in E.
    + unfold new_events, world_after in E. rewrite R in E.
      cbn [snd trace] in E. rewrite drop_app_length in E.
      repeat (apply elem_of_cons in E as [-> | E]; [discriminate|]).
      by apply elem_of_nil in E.
    + unfold new_events, world_after in E. rewrite R in E.
      cbn [snd trace] in E. rewrite drop_app_length in E.
      eapply Finish; [exact S | exact U | exact B | | exact E].
      repeat constructor.
    + unfold new_events, world_after in E. rewrite R in E.
      cbn [snd trace] in E. rewrite drop_app_length in E.
      eapply Finish; [exact S | exact U | exact B | | exact E].
      repeat constructor.
  - destruct (post_upload_part_000_cases env c req w)
      as [(U & R) | [(U & B & R) | [(U & B & NB & R)
          | [(U & B & data & err & HB & S & R) | (U & B & r & S & R)]]]].
    + destruct (Early _ _ R).
    + destruct (Early _ _ R).
    + unfold new_events, world_after in E. rewrite R in E.
      cbn [snd trace] in E. rewrite drop_app_length in E.
      repeat (apply elem_of_cons in E as [-> | E]; [discriminate|]).
      by apply elem_of_nil in E.
    + unfold new_events, world_after in E. rewrite R in E.
      cbn [snd trace] in E. rewrite drop_app_length in E.
      repeat (apply elem_of_cons in E as [-> | E]; [discriminate|]).
      by apply elem_of_nil in E.
    + unfold new_events, world_after in E. rewrite R in E.
      cbn [snd trace] in E. rewrite drop_app_length in E.
      eapply Finish; [exact S | exact U | exact B | | exact E].
      repeat constructor.
Qed.

Lemma upload_notification_needs_storage_witness :
  telegram_configured Scenario.env = true
  ∧ key_valid Scenario.env Scenario.upload_req
  ∧ ¬ body_rejected Scenario.upload_req.
Proof.
  pose (e := telegram_request Scenario.env Scenario.up Scenario.upload_req
                              Scenario.result).
  assert (E : e ∈ new_events (post_upload Scenario.env Scenario.up
                                          Scenario.upload_req)
                             Scenario.empty_world).
  { apply list_elem_of_In. vm_compute.
    repeat (first [left; reflexivity | right]). }
  destruct (upload_notification_needs_storage Scenario.env Scenario.up
              Scenario.upload_req Scenario.empty_world _ e
              (or_introl eq_refl) E eq_refl)
    as (T & K & B & _).
  auto.
Defined.

Lemma unauthorized_same_secret env1 env2 k :
  env1 !! "DEVICE_API_KEY" = env2 !! "DEVICE_API_KEY" →
  unauthorized env1 k = unauthorized env2 k.
Proof. intros E. unfold unauthorized. by rewrite E. Qed.

(** The answer to an upload and the store after it depend neither on the
    Telegram settings nor on what the Telegram API answers: two runs that
    share the device key, the storage service, the clock and the database
    give the same response and the same collection. *)
Theorem upload_independent_of_notification env1 env2 c1 c2 req w :
  env1 !! "DEVICE_API_KEY" = env2 !! "DEVICE_API_KEY" →
  upload_stream c1 = upload_stream c2 →
  new_ObjectId c1 = new_ObjectId c2 →
  Date_now c1 = Date_now c2 →
  insert_error c1 = insert_error c2 →
  response_of (post_upload env1 c1 req) w
  = response_of (post_upload env2 c2 req) w
  ∧ collection (world_after (post_upload env1 c1 req) w)
    = collection (world_after (post_upload env2 c2 req) w).
Proof.
  intros HK HU HO HD HI.
  assert (SD : ∀ r, stored_doc c1 w req r = stored_doc c2 w req r).
  { intros r. unfold stored_doc, built_doc, Image_new. by rewrite HO, HD. }
  pose proof (unauthorized_same_secret env1 env2 (supplied_key req) HK) as UU.
  unfold response_of, world_after.
  destruct (post_upload_cases env1 c1 req w)
    as [(U & R) | [(U & N & R) | [(U & N & B & R) | [(U & N & data & err & B & S & R)
        | [(U & N & r & S & F & R) | (U & N & r & S & NE & I & R)]]]]];
    rewrite R; rewrite UU in U.
  - by rewrite (post_upload_401 env2 c2 req w U).
  - by rewrite (post_upload_400 env2 c2 req w U N).
  - by rewrite (post_upload_crash env2 c2 req w U N B).
  - rewrite HU in S.
    by rewrite (post_upload_storage_error env2 c2 req w U N data err B S).
  - rewrite HU in S. rewrite SD, HI in F.
    by rewrite (post_upload_save_error env2 c2 req w U N r S F).
  - rewrite HU in S. rewrite SD, HI in I.
    rewrite (post_upload_saved env2 c2 req w U N r S NE I).
    cbn [fst snd collection]. by rewrite SD, HD.
Qed.

Lemma upload_independent_of_notification_witness :
  response_of (post_upload Scenario.env Scenario.up Scenario.upload_req)
              Scenario.empty_world
  = response_of (post_upload scenario_env_quiet scenario_telegram_down
                             Scenario.upload_req) Scenario.empty_world.
Proof.
  exact (proj1 (upload_independent_of_notification
                  Scenario.env scenario_env_quiet
                  Scenario.up scenario_telegram_down
                  Scenario.upload_req Scenario.empty_world
                  eq_refl eq_refl eq_refl eq_refl eq_refl)).
Defined.

(** ** Which key and which device a request carries *)

Lemma truthy_Some s : s ≠ "" → truthy (Some s) = true.
Proof. intros NE. simpl. by destruct (String.eqb_spec s ""). Qed.

Lemma key_presented_supplied req k :
  key_presented req k → k ≠ "" → supplied_key req = Some k.
Proof.
  unfold supplied_key, js_or.
  intros [H | [T Q]] NE.
  - by rewrite H, truthy_Some.
  - by rewrite T.
Qed.

Lemma device_named_device_of req d : device_named req d → device_of req = d.
Proof.
  unfold device_of, js_or.
  intros [[H NE] | [(T & Q & NE) | (T & Q & ->)]].
  - rewrite H, truthy_Some by done. simpl.
    by destruct (String.eqb_spec d "").
  - rewrite T, Q. simpl. by destruct (String.eqb_spec d "").
  - rewrite T. destruct (query req !! "deviceId") as [s|]; [|done].
    simpl in *. by destruct (String.eqb_spec s "").
Qed.

(** Only a failed key check is answered 401. *)
Lemma upload_401_unauthorized env c req w h resp :
  h = post_upload env c req ∨ h = post_upload_part_000 env c req →
  response_of h w = Some resp →
  status resp = 401 →
  unauthorized env (supplied_key req) = true.
Proof.
  unfold response_of. intros [-> | ->].
  - destruct (post_upload_cases env c req w)
      as [(U & R) | [(U & N & R) | [(U & N & B & R) | [(U & N & data & err & B & S & R)
          | [(U & N & r & S & F & R) | (U & N & r & S & NE & I & R)]]]]];
      rewrite R; cbn [fst answer]; intros [= <-]; (done || discriminate).
  - destruct (post_upload_part_000_cases env c req w)
      as [(U & R) | [(U & N & R) | [(U & N & B & R) | [(U & N & data & err & B & S & R)
          | (U & N & r & S & R)]]]];
      rewrite R; cbn [fst answer]; intros [= <-]; (done || discriminate).
Qed.

(** The key of a request is its non-empty [x-api-key] header and, only
    when the header is absent or empty, its [apiKey] query parameter.
    For a non-empty key presented this way: when the configured secret
    is not that key, both handlers answer 401 with the error body; when
    it is, neither ever answers 401.  A key in the query does not count
    when the header carries one. *)
Theorem upload_key_precedence env c req w h k :
  h = post_upload env c req ∨ h = post_upload_part_000 env c req →
  key_presented req k →
  k ≠ "" →
  (env !! "DEVICE_API_KEY" ≠ Some k →
   response_of h w
   = Some {| status := 401;
             json := {[ "error" := JStr "Unauthorized: invalid api key" ]} |})
  ∧ (env !! "DEVICE_API_KEY" = Some k →
     ∀ resp, response_of h w = Some resp → status resp ≠ 401).
Proof.
  intros H P NE.
  pose proof (key_presented_supplied req k P NE) as SK.
  split.
  - intros NS.
    assert (U : unauthorized env (supplied_key req) = true).
    { apply unauthorized_true_iff. intros (k' & _ & E1 & E2).
      rewrite SK in E1. injection E1 as <-. contradiction. }
    unfold response_of. destruct H as [-> | ->].
    + by rewrite (post_upload_401 env c req w U).
    + by rewrite (post_upload_part_000_401 env c req w U).
  - intros E resp R St.
    pose proof (upload_401_unauthorized env c req w h resp H R St) as U.
    apply unauthorized_true_iff in U. apply U. by exists k.
Qed.

Lemma upload_key_precedence_witness :
  response_of (post_upload Scenario.env Scenario.up Scenario.wrong_key_req)
              Scenario.empty_world
  = Some {| status := 401;
            json := {[ "error" := JStr "Unauthorized: invalid api key" ]} |}.
Proof.
  assert (P : key_presented Scenario.wrong_key_req "letmein")
    by (left; reflexivity).
  assert (NE : "letmein" ≠ "") by discriminate.
  assert (NS : Scenario.env !! "DEVICE_API_KEY" ≠ Some "letmein")
    by (vm_compute; discriminate).
  exact (proj1 (upload_key_precedence Scenario.env Scenario.up
                  Scenario.wrong_key_req Scenario.empty_world _ "letmein"
                  (or_introl eq_refl) P NE) NS).
Defined.

(** With a valid key and an accepted body, both handlers make exactly one
    storage call: the request body as received, in the folder [esp32/d],
    [d] being the non-empty [x-device-id] header, else the non-empty
    [deviceId] query parameter, else [unknown_device]. *)
Theorem upload_storage_call env c req w h d :
  h = post_upload env c req ∨ h = post_upload_part_000 env c req →
  key_valid env req →
  ¬ body_rejected req →
  device_named req d →
  List.filter is_storage_call (new_events h w)
  = [UploadStream ("esp32/" +:+ d) (body req)].
Proof.
  intros H K%unauthorized_false_iff B%no_image_false_iff D.
  apply device_named_device_of in D. subst d.
  change ("esp32/" +:+ device_of req) with (folder_of req).
  assert (NS : ∀ r, List.filter is_storage_call
                      (notify_events env c (device_of req) r) = []).
  { intros r. unfold notify_events.
    destruct (_ && _); [|reflexivity].
    cbn [List.filter is_storage_call]. by destruct (axios_post c _ _ _ _). }
  destruct H as [-> | ->].
  - destruct (post_upload_cases env c req w)
      as [(U & R) | [(U & N & R) | [(U & N & NB & R)
          | [(U & N & data & err & HB & S & R)
          | [(U & N & r & S & F & R) | (U & N & r & S & NE & I & R)]]]]];
      try congruence;
      unfold new_events, world_after; rewrite R; cbn [snd trace];
      rewrite drop_app_length, ?List.filter_app, ?NS; reflexivity.
  - destruct (post_upload_part_000_cases env c req w)
      as [(U & R) | [(U & N & R) | [(U & N & NB & R)
          | [(U & N & data & err & HB & S & R) | (U & N & r & S & R)]]]];
      try congruence;
      unfold new_events, world_after; rewrite R; cbn [snd trace];
      rewrite drop_app_length, ?List.filter_app, ?NS; reflexivity.
Qed.

Lemma upload_storage_call_witness :
  List.filter is_storage_call
    (new_events (post_upload Scenario.env Scenario.up scenario_query_device_req)
                Scenario.empty_world)
  = [UploadStream "esp32/porch-cam" (BBuffer Scenario.jpeg)].
Proof.
  assert (K : key_valid Scenario.env scenario_query_device_req).
  { exists "secret123". repeat split. discriminate. }
  assert (B : ¬ body_rejected scenario_query_device_req).
  { intros [H | [H | H]]; discriminate. }
  assert (D : device_named scenario_query_device_req "porch-cam").
  { right; left. repeat split. discriminate. }
  exact (upload_storage_call Scenario.env Scenario.up scenario_query_device_req
           Scenario.empty_world _ "porch-cam" (or_introl eq_refl) K B D).
Defined.

(** ** Every run of [GET /images] *)

Lemma get_images_run c req w :
  run (get_images c req) w
  = let device := listing_filter req in
    let limit := effective_limit (query req !! "limit") in
    let failed e :=
      (Some {| status := 500;
               json := {[ "ok" := JBool false; "error" := JStr e ]} |},
       {| collection := collection w;
          trace := (trace w ++ [ImageFind device limit;
                                ConsoleError "GET /images error"])%list |}) in
    let found l :=
      (Some {| status := 200;
               json := {[ "ok" := JBool true;
                          "images" := JArr (listed <$> l) ]} |},
       {| collection := collection w;
          trace := (trace w ++ [ImageFind device limit])%list |}) in
    match find_error c device limit with
    | Some e => failed e
    | None =>
        match limit with
        | Num n =>
            found (cursor_limit n (sort_createdAt_desc (matching_docs req w)))
        | NaN =>
            match limit_NaN_error c with
            | Some e => failed e
            | None => found (sort_createdAt_desc (matching_docs req w))
            end
        end
    end.
Proof.
  unfold run, get_images, Image_find, matching_docs, listed.
  fold (listing_filter req).
  generalize (effective_limit (query req !! "limit")) as limit.
  generalize (listing_filter req) as device.
  intros device limit. msimpl.
  destruct (find_error c device limit); msimpl.
  - rewrite <- app_assoc. reflexivity.
  - destruct limit; msimpl; [|reflexivity].
    destruct (limit_NaN_error c); msimpl; [|reflexivity].
    rewrite <- app_assoc. reflexivity.
Qed.

(** [GET /images] reads and never writes: the collection is unchanged,
    and the only call to a collaborator is one query, with the filter and
    the limit computed from the request. *)
Theorem images_read_only c req w :
  collection (world_after (get_images c req) w) = collection w
  ∧ List.filter is_collaborator_call (new_events (get_images c req) w)
    = [ImageFind (listing_filter req) (effective_limit (query req !! "limit"))].
Proof.
  unfold new_events, world_after. rewrite get_images_run. cbn zeta.
  destruct (find_error c _ _);
    [|destruct (effective_limit _); [destruct (limit_NaN_error c)|]];
    cbn [snd collection trace]; rewrite drop_app_length; by split.
Qed.


(** ** How many records a listing returns *)

Lemma images_of_found l :
  images_of {| status := 200;
               json := {[ "ok" := JBool true; "images" := JArr l ]} |} = l.
Proof. reflexivity. Qed.

Lemma images_of_failed e :
  images_of {| status := 500;
               json := {[ "ok" := JBool false; "error" := JStr e ]} |} = [].
Proof. reflexivity. Qed.

(** What a listing returns is the projection of a list [l] of stored
    documents that is cut from the front of the matching documents sorted
    newest first, at the effective limit when it is a non-zero number. *)
Lemma get_images_listed c req w r :
  response_of (get_images c req) w = Some r →
  ∃ l rest,
    images_of r = listed <$> l
    ∧ sort_createdAt_desc (matching_docs req w) = (l ++ rest)%list
    ∧ (status r = 200 →
       ∀ n, effective_limit (query req !! "limit") = Num n →
            l = cursor_limit n (sort_createdAt_desc (matching_docs req w))).
Proof.
  unfold response_of. rewrite get_images_run. cbn zeta.
  assert (Failed : ∀ e (x : World),
    (Some {| status := 500;
             json := {[ "ok" := JBool false; "error" := JStr e ]} |}, x).1
    = Some r →
    ∃ l rest,
      images_of r = listed <$> l
      ∧ sort_createdAt_desc (matching_docs req w) = (l ++ rest)%list
      ∧ (status r = 200 →
         ∀ n, effective_limit (query req !! "limit") = Num n →
              l = cursor_limit n (sort_createdAt_desc (matching_docs req w)))).
  { intros e x [= <-]. exists [], (sort_createdAt_desc (matching_docs req w)).
    rewrite images_of_failed. repeat split. discriminate. }
  destruct (find_error c _ _) as [e|]; [by apply Failed|].
  destruct (effective_limit _) as [|n] eqn:L.
  - destruct (limit_NaN_error c) as [e|]; [by apply Failed|].
    intros [= <-]. exists (sort_createdAt_desc (matching_docs req w)), [].
    rewrite images_of_found, app_nil_r. repeat split. discriminate.
  - intros [= <-].
    destruct (cursor_limit_prefix n (sort_createdAt_desc (matching_docs req w)))
      as [rest E].
    exists (cursor_limit n (sort_createdAt_desc (matching_docs req w))), rest.
    rewrite images_of_found. split; [done|]. split; [done|].
    by intros _ ? [= <-].
Qed.

(** Without a [limit] parameter, or with an empty one, a listing returns
    at most 20 records. *)
Theorem images_default_limit_20 c req w r :
  query req !! "limit" = None ∨ query req !! "limit" = Some "" →
  response_of (get_images c req) w = Some r →
  (List.length (images_of r) ≤ 20)%nat.
Proof.
  intros Q R.
  assert (L : effective_limit (query req !! "limit") = Num 20)
    by (destruct Q as [-> | ->]; reflexivity).
  destruct (get_images_inv c req w) as (r' & R' & H).
  rewrite R in R'. injection R' as <-.
  destruct H as [-> | (w' & F)]; [simpl; lia|].
  apply Image_find_inv in F as (l & -> & _ & B).
  rewrite length_fmap. by apply (B 20%Z).
Qed.

Lemma images_default_limit_20_witness :
  (List.length (images_of scenario_listing) ≤ 20)%nat.
Proof.
  exact (images_default_limit_20 Scenario.up (Scenario.listing ∅)
           Scenario.one_image scenario_listing (or_introl eq_refl)
           scenario_list_all).
Defined.

(** With a [limit] that reads as a number [n] of at least 1, a listing
    returns at most [n] records and never more than 100. *)
Theorem images_at_most_100 c req w r s n :
  query req !! "limit" = Some s →
  parseInt s = Num n →
  (1 <= n)%Z →
  response_of (get_images c req) w = Some r →
  (List.length (images_of r) ≤ Z.to_nat (Z.min n 100))%nat.
Proof.
  intros Q P N R.
  assert (NE : s ≠ "") by (intros ->; discriminate).
  assert (L : effective_limit (query req !! "limit") = Num (Z.min 100 n)).
  { rewrite Q. unfold effective_limit. simpl.
    destruct (String.eqb_spec s ""); [contradiction|]. by rewrite P. }
  destruct (get_images_inv c req w) as (r' & R' & H).
  rewrite R in R'. injection R' as <-.
  destruct H as [-> | (w' & F)]; [simpl; lia|].
  apply Image_find_inv in F as (l & -> & _ & B).
  rewrite length_fmap. specialize (B _ L). lia.
Qed.

Lemma images_at_most_100_witness :
  (List.length (images_of scenario_listing) ≤ Z.to_nat (Z.min 250 100))%nat.
Proof.
  assert (Q : query (Scenario.listing {[ "limit" := "250" ]}) !! "limit"
              = Some "250") by reflexivity.
  assert (R : response_of (get_images Scenario.up
                             (Scenario.listing {[ "limit" := "250" ]}))
                          Scenario.one_image = Some scenario_listing)
    by (vm_compute; reflexivity).
  assert (N : (1 <= 250)%Z) by lia.
  exact (images_at_most_100 Scenario.up (Scenario.listing {[ "limit" := "250" ]})
           Scenario.one_image scenario_listing "250" 250 Q eq_refl N R).
Defined.

(** A [limit] that reads as 0 lifts the bound: when the query succeeds,
    every matching record is returned, however many there are. *)
Theorem images_limit_zero_unbounded c req w s :
  query req !! "limit" = Some s →
  parseInt s = Num 0 →
  find_error c (listing_filter req) (Num 0) = None →
  ∃ r,
    response_of (get_images c req) w = Some r
    ∧ status r = 200
    ∧ images_of r = listed <$> sort_createdAt_desc (matching_docs req w)
    ∧ List.length (images_of r) = List.length (matching_docs req w).
Proof.
  intros Q P F.
  assert (NE : s ≠ "") by (intros ->; discriminate).
  assert (L : effective_limit (query req !! "limit") = Num 0).
  { rewrite Q. unfold effective_limit. simpl.
    destruct (String.eqb_spec s ""); [contradiction|]. by rewrite P. }
  unfold response_of. rewrite get_images_run. cbn zeta. rewrite L, F.
  eexists. split; [reflexivity|]. split; [reflexivity|].
  rewrite images_of_found. split; [reflexivity|].
  rewrite length_fmap. unfold cursor_limit. simpl.
  unfold sort_createdAt_desc. by rewrite merge_sort_Permutation.
Qed.

Lemma images_limit_zero_unbounded_witness :
  ∃ r,
    response_of (get_images Scenario.up (Scenario.listing {[ "limit" := "0" ]}))
                Scenario.one_image = Some r
    ∧ status r = 200.
Proof.
  assert (Q : query (Scenario.listing {[ "limit" := "0" ]}) !! "limit"
              = Some "0") by reflexivity.
  destruct (images_limit_zero_unbounded Scenario.up
              (Scenario.listing {[ "limit" := "0" ]}) Scenario.one_image "0"
              Q eq_refl eq_refl)
    as (r & R & St & _).
  exists r. auto.
Defined.

(** ** Which records a listing returns *)

Lemma lean_url d : lean d !! "url" = Some (JStr (url d)).
Proof. unfold lean. by rewrite !lookup_set_opt_ne. Qed.

Lemma lean_public_id d : lean d !! "public_id" = JStr <$> public_id d.
Proof.
  unfold lean. rewrite lookup_set_opt_eq; [done|].
  by rewrite !lookup_set_opt_ne.
Qed.

Lemma lean_width d : lean d !! "width" = JNum <$> width d.
Proof.
  unfold lean. rewrite !(lookup_set_opt_ne _ "width") by done.
  rewrite lookup_set_opt_eq; [done|]. by rewrite !lookup_set_opt_ne.
Qed.

Lemma lean_height d : lean d !! "height" = JNum <$> height d.
Proof.
  unfold lean. rewrite !(lookup_set_opt_ne _ "height") by done.
  rewrite lookup_set_opt_eq; [done|]. by rewrite !lookup_set_opt_ne.
Qed.

Lemma lean_bytes d : lean d !! "bytes" = JNum <$> bytes d.
Proof.
  unfold lean. rewrite !(lookup_set_opt_ne _ "bytes") by done.
  rewrite lookup_set_opt_eq; [done|]. by rewrite !lookup_set_opt_ne.
Qed.

(** The fields of the record returned for a stored document. *)
Lemma listed_fields d :
  listed d !! "_id" = Some (JOid (_id d))
  ∧ listed d !! "url" = Some (JStr (url d))
  ∧ listed d !! "deviceId" = Some (JStr (deviceId d))
  ∧ listed d !! "createdAt" = JDate <$> createdAt d
  ∧ listed d !! "public_id" = JStr <$> public_id d
  ∧ listed d !! "width" = JNum <$> width d
  ∧ listed d !! "height" = JNum <$> height d
  ∧ listed d !! "bytes" = JNum <$> bytes d.
Proof.
  unfold listed, compose.
  rewrite !select_lookup_keep by key_dec.
  rewrite lean_id, lean_url, lean_deviceId, lean_createdAt, lean_public_id,
    lean_width, lean_height, lean_bytes.
  by repeat split.
Qed.

(** Every record of a listing is a stored document as it is stored: its
    identifier, URL, device, creation time and metadata are those of a
    document of the collection, and a field the document lacks is absent
    from the record. *)
Theorem images_records_are_stored c req w r o :
  response_of (get_images c req) w = Some r →
  o ∈ images_of r →
  ∃ d, d ∈ collection w
     ∧ o !! "_id" = Some (JOid (_id d))
     ∧ o !! "url" = Some (JStr (url d))
     ∧ o !! "deviceId" = Some (JStr (deviceId d))
     ∧ o !! "createdAt" = JDate <$> createdAt d
     ∧ o !! "public_id" = JStr <$> public_id d
     ∧ o !! "width" = JNum <$> width d
     ∧ o !! "height" = JNum <$> height d
     ∧ o !! "bytes" = JNum <$> bytes d.
Proof.
  intros R O.
  destruct (get_images_records c req w r o R O) as (d & -> & D & _).
  exists d. split; [exact D|]. apply listed_fields.
Qed.

Lemma images_records_are_stored_witness :
  ∃ d, d ∈ collection Scenario.one_image
     ∧ scenario_record !! "url" = Some (JStr (url d)).
Proof.
  destruct (images_records_are_stored Scenario.up (Scenario.listing ∅)
              Scenario.one_image scenario_listing scenario_record
              scenario_list_all scenario_record_listed)
    as (d & D & _ & U & _).
  exists d. auto.
Defined.

(** The records of a listing are the newest matching ones: the matching
    documents split into the listed ones and the others, and no listed
    record is older than a matching record left out. *)
Theorem images_newest_first c req w r :
  response_of (get_images c req) w = Some r →
  ∃ l rest,
    images_of r = listed <$> l
    ∧ (l ++ rest)%list ≡ₚ matching_docs req w
    ∧ ∀ a b, a ∈ l → b ∈ rest → date_le (createdAt b) (createdAt a).
Proof.
  intros R. destruct (get_images_listed c req w r R) as (l & rest & E & S & _).
  exists l, rest. split; [exact E|]. split.
  - rewrite <- S. unfold sort_createdAt_desc. apply merge_sort_Permutation.
  - intros a b A B.
    pose proof (sort_createdAt_desc_sorted (matching_docs req w)) as St.
    rewrite S in St.
    exact (StronglySorted_app_1_elem_of newer_first l rest a b St A B).
Qed.

Lemma images_newest_first_witness :
  ∃ l rest,
    images_of scenario_listing = listed <$> l
    ∧ (l ++ rest)%list ≡ₚ matching_docs (Scenario.listing ∅) Scenario.one_image.
Proof.
  destruct (images_newest_first Scenario.up (Scenario.listing ∅)
              Scenario.one_image scenario_listing scenario_list_all)
    as (l & rest & E & P & _).
  exists l, rest. auto.
Defined.

(** With room under the limit, the answer holds every matching document,
    sorted. *)
Lemma get_images_all_listed c req w n :
  effective_limit (query req !! "limit") = Num n →
  (1 <= n)%Z →
  (Z.of_nat (List.length (matching_docs req w)) <= n)%Z →
  find_error c (listing_filter req) (Num n) = None →
  response_of (get_images c req) w
  = Some {| status := 200;
            json := {[ "ok" := JBool true;
                       "images" := JArr (listed <$> sort_createdAt_desc
                                                      (matching_docs req w)) ]} |}.
Proof.
  intros L N Len F.
  unfold response_of. rewrite get_images_run. cbn zeta. rewrite L, F.
  assert (E : cursor_limit n (sort_createdAt_desc (matching_docs req w))
              = sort_createdAt_desc (matching_docs req w)).
  { unfold cursor_limit. destruct (Z.eqb_spec n 0); [lia|].
    apply take_ge. unfold sort_createdAt_desc.
    rewrite merge_sort_Permutation. lia. }
  by rewrite E.
Qed.

(** When the query succeeds and the matching records are no more than
    the effective limit, a number of at least 1, all of them are listed,
    newest first. *)
Theorem images_complete_within_limit c req w n :
  effective_limit (query req !! "limit") = Num n →
  (1 <= n)%Z →
  (Z.of_nat (List.length (matching_docs req w)) <= n)%Z →
  find_error c (listing_filter req) (Num n) = None →
  ∃ r,
    response_of (get_images c req) w = Some r
    ∧ status r = 200
    ∧ images_of r = listed <$> sort_createdAt_desc (matching_docs req w)
    ∧ images_of r ≡ₚ listed <$> matching_docs req w.
Proof.
  intros L N Len F.
  pose proof (get_images_all_listed c req w n L N Len F) as R.
  eexists. split; [exact R|]. split; [reflexivity|].
  rewrite images_of_found. split; [reflexivity|].
  unfold sort_createdAt_desc. by rewrite merge_sort_Permutation.
Qed.

Lemma images_complete_within_limit_witness :
  ∃ r,
    response_of (get_images Scenario.up (Scenario.listing ∅)) Scenario.one_image
    = Some r
    ∧ status r = 200.
Proof.
  assert (Len : (Z.of_nat (List.length (matching_docs (Scenario.listing ∅)
                                                   Scenario.one_image)) <= 20)%Z)
    by (vm_compute; discriminate).
  assert (N : (1 <= 20)%Z) by lia.
  assert (L : effective_limit (query (Scenario.listing ∅) !! "limit") = Num 20)
    by reflexivity.
  destruct (images_complete_within_limit Scenario.up (Scenario.listing ∅)
              Scenario.one_image 20 L N Len eq_refl)
    as (r & R & St & _).
  exists r. auto.
Defined.

(** ** An upload, then a listing *)

Lemma matching_docs_length q w :
  (List.length (matching_docs q w) ≤ List.length (collection w))%nat.
Proof.
  unfold matching_docs. destruct (listing_filter q); [|done].
  apply length_filter.
Qed.

(** After an upload that stored its record, a listing that is unfiltered
    or filtered on the uploading device, whose effective limit exceeds the
    number of records held before the upload and whose query succeeds,
    returns the new record: its [_id] is the stored identifier (the
    [imageId] of the upload's answer), and its URL, device, creation time
    and metadata are those of the upload. *)
Theorem upload_then_list env c req w r d c' q n :
  key_valid env req →
  ¬ body_rejected req →
  upload_stream c (folder_of req) (body req) = inr r →
  save_outcome c w req r = inr d →
  listing_filter q = None ∨ listing_filter q = Some (device_of req) →
  effective_limit (query q !! "limit") = Num n →
  (Z.of_nat (List.length (collection w)) < n)%Z →
  find_error c' (listing_filter q) (Num n) = None →
  ∃ resp o,
    response_of (get_images c' q) (world_after (post_upload env c req) w)
    = Some resp
    ∧ status resp = 200
    ∧ o ∈ images_of resp
    ∧ o !! "_id" = Some (JOid (_id d))
    ∧ o !! "url" = Some (JStr (Cloudinary.secure_url r))
    ∧ o !! "deviceId" = Some (JStr (device_of req))
    ∧ o !! "createdAt" = Some (JDate (Date_now c))
    ∧ o !! "public_id" = Some (JStr (Cloudinary.public_id r))
    ∧ o !! "width" = Some (JNum (Cloudinary.width r))
    ∧ o !! "height" = Some (JNum (Cloudinary.height r))
    ∧ o !! "bytes" = Some (JNum (Cloudinary.bytes r)).
Proof.
  intros K%unauthorized_false_iff B%no_image_false_iff S
         (NE & I & ->)%save_outcome_saved Q L Len F.
  pose proof (post_upload_saved env c req w K B r S NE I) as R.
  set (w' := world_after (post_upload env c req) w).
  assert (C : collection w' = (collection w ++ [stored_doc c w req r])%list).
  { subst w'. unfold world_after. by rewrite R. }
  assert (Len' : (Z.of_nat (List.length (matching_docs q w')) <= n)%Z).
  { pose proof (matching_docs_length q w') as M.
    rewrite C, length_app in M. simpl in M. lia. }
  assert (N : (1 <= n)%Z) by lia.
  pose proof (get_images_all_listed c' q w' n L N Len' F) as R'.
  eexists. exists (listed (stored_doc c w req r)).
  split; [exact R'|]. split; [reflexivity|]. split.
  - rewrite images_of_found. apply list_elem_of_fmap. eexists. split; [reflexivity|].
    apply sort_createdAt_desc_elem. unfold matching_docs.
    assert (D : stored_doc c w req r ∈ collection w')
      by (rewrite C; apply elem_of_app; right; by left).
    destruct Q as [-> | ->]; [exact D|].
    apply list_elem_of_filter. by split.
  - destruct (listed_fields (stored_doc c w req r))
      as (F1 & F2 & F3 & F4 & F5 & F6 & F7 & F8).
    by repeat split.
Qed.

Lemma upload_then_list_witness :
  ∃ resp o,
    response_of (get_images Scenario.up
                   (Scenario.listing {[ "deviceId" := "esp32-1" ]}))
                Scenario.one_image = Some resp
    ∧ status resp = 200
    ∧ o ∈ images_of resp
    ∧ o !! "url" = Some (JStr "https://cdn/x.jpg").
Proof.
  assert (Q : listing_filter (Scenario.listing {[ "deviceId" := "esp32-1" ]})
              = None
              ∨ listing_filter (Scenario.listing {[ "deviceId" := "esp32-1" ]})
                = Some (device_of Scenario.upload_req))
    by (right; reflexivity).
  assert (L : effective_limit
                (query (Scenario.listing {[ "deviceId" := "esp32-1" ]}) !! "limit")
              = Num 20) by reflexivity.
  assert (Len : (Z.of_nat (List.length (collection Scenario.empty_world)) < 20)%Z)
    by (simpl; lia).
  destruct (upload_then_list Scenario.env Scenario.up Scenario.upload_req
              Scenario.empty_world Scenario.result _ Scenario.up
              (Scenario.listing {[ "deviceId" := "esp32-1" ]}) 20
              scenario_upload_req_key_valid scenario_upload_req_not_rejected
              eq_refl eq_refl Q L Len eq_refl)
    as (resp & o & R & St & O & _ & U & _).
  exists resp, o. auto.
Defined.

(** ** How lenient the limit is *)

(** [t] does not begin with a decimal digit. *)
Lemma digits_prefix_app acc s t :
  match t with String ch _ => digit_of ch = None | EmptyString => True end →
  digits_prefix acc (s +:+ t) = digits_prefix acc s.
Proof.
  intros T. revert acc. induction s as [|ch s IH]; intros acc; simpl.
  - destruct t as [|ch t]; [done|]. simpl. by rewrite T.
  - destruct (digit_of ch); [apply IH | done].
Qed.

(** A byte below 128 begins no white space of two or three bytes. *)
Lemma is_white2_low c1 c2 : (nat_of_ascii c1 < 128)%nat → is_white2 c1 c2 = false.
Proof.
  intros L. unfold is_white2.
  destruct (Nat.eqb_spec (nat_of_ascii c1) 194); [lia | done].
Qed.

Lemma is_white3_low c1 c2 c3 :
  (nat_of_ascii c1 < 128)%nat → is_white3 c1 c2 c3 = false.
Proof.
  intros L. unfold is_white3.
  destruct (Nat.eqb_spec (nat_of_ascii c1) 225); [lia|].
  destruct (Nat.eqb_spec (nat_of_ascii c1) 226); [lia|].
  destruct (Nat.eqb_spec (nat_of_ascii c1) 227); [lia|].
  destruct (Nat.eqb_spec (nat_of_ascii c1) 239); [lia | done].
Qed.

(** When what is left of [s] after its white space begins with an ASCII
    character, the white space of [s +:+ t] ends at the same place. *)
Lemma trim_start_app_fuel k :
  ∀ s t ch rest,
    (String.length s ≤ k)%nat →
    trim_start s = String ch rest →
    (nat_of_ascii ch < 128)%nat →
    trim_start (s +:+ t) = String ch rest +:+ t.
Proof.
  induction k as [|k IH]; intros s t ch rest L E A.
  { destruct s; [discriminate E | simpl in L; lia]. }
  destruct s as [|c1 r1]; [discriminate E|].
  simpl in L. simpl in E |- *.
  destruct (is_white c1) eqn:W1; [apply IH; [lia | done | done]|].
  destruct r1 as [|c2 r2].
  { injection E as <- <-. simpl.
    destruct t as [|c2 [|c3 r3]]; simpl;
      by rewrite ?is_white2_low, ?is_white3_low. }
  simpl in L. simpl in E |- *.
  destruct (is_white2 c1 c2) eqn:W2; [apply IH; [lia | done | done]|].
  destruct r2 as [|c3 r3].
  { injection E as <- <-. simpl.
    destruct t as [|c3 r3]; simpl; by rewrite ?is_white3_low. }
  simpl in L. simpl in E |- *.
  destruct (is_white3 c1 c2 c3) eqn:W3; [apply IH; [lia | done | done]|].
  by injection E as <- <-.
Qed.

Lemma trim_start_app s t ch rest :
  trim_start s = String ch rest →
  (nat_of_ascii ch < 128)%nat →
  trim_start (s +:+ t) = String ch rest +:+ t.
Proof. by apply (trim_start_app_fuel (String.length s)). Qed.

Lemma digit_of_low ch d : digit_of ch = Some d → (nat_of_ascii ch < 128)%nat.
Proof.
  unfold digit_of.
  destruct (Nat.leb_spec 48 (nat_of_ascii ch)); simpl; [|discriminate].
  destruct (Nat.leb_spec (nat_of_ascii ch) 57); [lia | discriminate].
Qed.

Lemma parseInt_app s t n :
  match t with String ch _ => digit_of ch = None | EmptyString => True end →
  parseInt s = Num n →
  parseInt (s +:+ t) = Num n.
Proof.
  intros T. unfold parseInt.
  destruct (trim_start s) as [|ch rest] eqn:E; [discriminate|].
  assert (P : ∀ s0, digits_prefix None (s0 +:+ t) = digits_prefix None s0)
    by (intros; by apply digits_prefix_app).
  destruct (Ascii.ascii_dec ch "-") as [-> | NM].
  { rewrite (trim_start_app s t _ _ E) by (vm_compute; lia).
    change (String "-" rest +:+ t) with (String "-" (rest +:+ t)).
    cbn iota beta. by rewrite P. }
  destruct (Ascii.ascii_dec ch "+") as [-> | NP].
  { rewrite (trim_start_app s t _ _ E) by (vm_compute; lia).
    change (String "+" rest +:+ t) with (String "+" (rest +:+ t)).
    cbn iota beta. by rewrite P. }
  assert (G : ∀ u : string,
            match String ch u with
            | String "-" r0 => ((-1)%Z, r0)
            | String "+" r0 => (1%Z, r0)
            | _ => (1%Z, String ch u)
            end = (1%Z, String ch u)).
  { intros u.
    destruct ch as [[] [] [] [] [] [] [] []]; try reflexivity; congruence. }
  cbn iota beta. rewrite G. intros D.
  assert (A : (nat_of_ascii ch < 128)%nat).
  { simpl in D. destruct (digit_of ch) as [d|] eqn:Dg; [|discriminate].
    by apply (digit_of_low ch d). }
  rewrite (trim_start_app s t _ _ E A).
  change (String ch rest +:+ t) with (String ch (rest +:+ t)).
  cbn iota beta. rewrite G.
  change (String ch (rest +:+ t)) with (String ch rest +:+ t).
  by rewrite P.
Qed.

Example parseInt_white_space :
  parseInt nbsp_5 = Num 5
  ∧ effective_limit (Some nbsp_5) = Num 5
  ∧ parseInt (String (ascii_of_nat 239) (String (ascii_of_nat 187)
                (String (ascii_of_nat 191) " -12"))) = Num (-12)
  ∧ parseInt (String (ascii_of_nat 194) "5") = NaN.
Proof. repeat split. Qed.

(** The limit is read leniently: when a [limit] reads as a number, the
    same [limit] followed by any text that does not begin with a decimal
    digit gives the same effective limit (so [5abc], [5.9] and [5e3] are
    all read as [5]). *)
Theorem limit_ignores_suffix s t n :
  parseInt s = Num n →
  match t with String ch _ => digit_of ch = None | EmptyString => True end →
  effective_limit (Some (s +:+ t)) = effective_limit (Some s).
Proof.
  intros P T.
  assert (NE : s ≠ "") by (intros ->; discriminate).
  assert (NE' : s +:+ t ≠ "") by (destruct s; [done | discriminate]).
  unfold effective_limit. simpl.
  destruct (String.eqb_spec s ""); [contradiction|].
  destruct (String.eqb_spec (s +:+ t) ""); [contradiction|].
  by rewrite (parseInt_app s t n T P), P.
Qed.

Lemma limit_ignores_suffix_witness :
  effective_limit (Some "5.9") = effective_limit (Some "5").
Proof.
  exact (limit_ignores_suffix "5" ".9" 5 eq_refl eq_refl).
Defined.
